(** * nutikodu-tapo: price-driven scheduling of smart plugs

    A shallow embedding of [price_info.py] (segmentation of a price
    series into cheap time frames) and of [main.py] ([DeviceScheduler]:
    threshold resolution, price refresh, desired state, retrying device
    access and the per-tick reconciliation), with the properties the
    specification states about them.

    Conventions of the embedding.
    - Python floats (prices, thresholds, delays) are idealised as exact
      rationals [Q]; [statistics.mean] and [statistics.median] follow the
      definitions of the Python standard library.
    - A naive [datetime] is its wall-clock reading counted in
      microseconds; [datetime.fromtimestamp] adds the UTC offset the
      local zone has at that timestamp, and the zone is a parameter.
    - Exceptions are values of [result]; loops written with [while] take
      fuel and raise [OutOfFuel] when it runs out, and are proved not to.
    - Network calls read their outcome from a script held in the world
      and append what happened to a log. *)

From Stdlib Require Import ZArith QArith Qreduction Lia Lqa List Bool.
From stdpp Require Import gmap strings list fin_maps sorting.

Open Scope Z_scope.

(** ** Exceptions *)

Inductive error := IndexError | StatisticsError | OutOfFuel | TypeError.

Inductive result (A : Type) :=
| Ok (a : A)
| Raise (e : error).
Arguments Ok {A} a.
Arguments Raise {A} e.

Global Instance result_bind : MBind result := fun A B k r =>
  match r with
  | Ok a => k a
  | Raise e => Raise e
  end.

(** [l[i]] for an index that is not negative. *)
Definition index {A} (l : list A) (i : nat) : result A :=
  match l !! i with
  | Some x => Ok x
  | None => Raise IndexError
  end.

(** ** Rationals standing for floats *)

(** [a < b] on prices. *)
Definition Qltb (a b : Q) : bool := negb (Qle_bool b a).

Definition Qsum (l : list Q) : Q := fold_right Qplus 0%Q l.

(** [statistics.mean]: the exact mean, raising on empty data. *)
Definition mean (data : list Q) : result Q :=
  match data with
  | [] => Raise StatisticsError
  | _ => Ok (Qred (Qsum data / inject_Z (Z.of_nat (length data))))
  end.

Global Instance Qle_dec : RelDecision Qle.
Proof. intros x y. destruct (Qlt_le_dec y x); [right | left]; auto using Qlt_not_le. Defined.

(** [statistics.median]: sort, then the middle value, or the average of
    the two middle values when the length is even. *)
Definition median (data : list Q) : result Q :=
  let data := merge_sort Qle data in
  let n := length data in
  if Nat.eqb n 0 then Raise StatisticsError
  else if Nat.eqb (n mod 2) 1 then index data (n / 2)
  else
    let i := (n / 2)%nat in
    a ← index data (i - 1);
    b ← index data i;
    Ok ((a + b) / 2)%Q.

(** ** Dates and times *)

Definition usec_per_minute : Z := 60 * 1000000.

(** [timedelta(minutes=m)] in microseconds. *)
Definition timedelta_minutes (m : Z) : Z := m * usec_per_minute.

(** A [datetime]: the wall-clock fields as one count of microseconds, and
    the UTC offset (in microseconds) of an aware value. *)
Record datetime := mk_datetime {
  wall : Z;
  tzinfo : option Z
}.

(** [dt.replace(tzinfo=None)]: the fields are kept, the zone is dropped. *)
Definition replace_tzinfo_none (dt : datetime) : datetime :=
  {| wall := wall dt; tzinfo := None |}.

(** The instant an aware datetime denotes, as UTC microseconds. *)
Definition instant_of (dt : datetime) : option Z :=
  match tzinfo dt with
  | Some off => Some (wall dt - off)
  | None => None
  end.

(** ** Price samples and time frames *)

(** One entry of the price feed: [{'timestamp': int, 'price': float}]. *)
Record sample := mk_sample {
  timestamp : Z;
  price : Q
}.

(** The tuple [(start_time, end_time, avg_price, duration_minutes)]; both
    times are naive local datetimes. *)
Record timeframe := mk_timeframe {
  start_time : Z;
  end_time : Z;
  avg_price : Q;
  duration_minutes : Z
}.

Section LocalZone.

(** UTC offset of the local zone, in seconds, at a POSIX timestamp. *)
Variable utcoffset : Z -> Z.

(** [datetime.fromtimestamp(ts)]: naive local time. *)
Definition fromtimestamp (ts : Z) : Z := (ts + utcoffset ts) * 1000000.

(** ** [price_info.efficient_timeframes] *)

(** [is_cheap = [p['price'] < threshold for p in prices]] *)
Definition is_cheap_of (prices : list sample) (threshold : Q) : list bool :=
  map (fun p => Qltb (price p) threshold) prices.

(** The inner loop
    [while i < len(prices) and is_cheap[i]: frame_prices.append(...); i += 1];
    returns the final [i] and [frame_prices]. *)
Fixpoint collect_cheap (fuel : nat) (prices : list sample) (is_cheap : list bool)
    (i : nat) (frame_prices : list Q) : result (nat * list Q) :=
  match fuel with
  | O => Raise OutOfFuel
  | S fuel' =>
    if (i <? length prices)%nat then
      c ← index is_cheap i;
      if (c : bool) then
        p ← index prices i;
        collect_cheap fuel' prices is_cheap (S i) (frame_prices ++ [price p])
      else Ok (i, frame_prices)
    else Ok (i, frame_prices)
  end.

(** The outer loop [while i < len(prices): ...]; [all_timeframes] is the
    list built so far. After the inner loop [i] is at least 1, so
    [prices[i-1]] is never a negative index. *)
Fixpoint scan_timeframes (fuel : nat) (prices : list sample) (is_cheap : list bool)
    (min_duration_minutes : Z) (i : nat) (all_timeframes : list timeframe)
    : result (list timeframe) :=
  match fuel with
  | O => Raise OutOfFuel
  | S fuel' =>
    if (i <? length prices)%nat then
      c ← index is_cheap i;
      if (c : bool) then
        let start_idx := i in
        '(i, frame_prices) ←
          collect_cheap (S (length prices)) prices is_cheap i [];
        first ← index prices start_idx;
        last ← index prices (i - 1);
        let start_time := fromtimestamp (timestamp first) in
        let end_time := fromtimestamp (timestamp last) + timedelta_minutes 15 in
        avg_price ← mean frame_prices;
        let duration_minutes := Z.of_nat (length frame_prices) * 15 in
        if (min_duration_minutes <=? duration_minutes) then
          scan_timeframes fuel' prices is_cheap min_duration_minutes i
            (all_timeframes ++
               [mk_timeframe start_time end_time avg_price duration_minutes])
        else
          scan_timeframes fuel' prices is_cheap min_duration_minutes i
            all_timeframes
      else
        scan_timeframes fuel' prices is_cheap min_duration_minutes (S i)
          all_timeframes
    else Ok all_timeframes
  end.

Definition efficient_timeframes (prices : list sample) (threshold_price : Q)
    (min_duration_minutes : Z) : result (list timeframe) :=
  match prices with
  | [] => Ok []
  | _ =>
    let threshold := threshold_price in
    let is_cheap := is_cheap_of prices threshold in
    scan_timeframes (S (length prices)) prices is_cheap min_duration_minutes 0 []
  end.

(** ** Configuration held by [web_app] *)

(** A threshold configuration [{'type': ..., 'value': ...}]. *)
Record threshold_config := mk_threshold_config {
  cfg_type : string;
  cfg_value : Q
}.

Definition DEFAULT_THRESHOLD_MULTIPLIER : Q := 3 # 2.

(** The module globals [devices] (a dict iterated in insertion order:
    name and address), [device_thresholds] and [forced_states] ([None] is
    auto, [True] forces on, [False] forces off). *)
Record web_app := mk_web_app {
  devices : list (string * string);
  device_thresholds : gmap string threshold_config;
  forced_states : gmap string (option bool)
}.

(** [name in web_app.devices] *)
Definition in_devices (app : web_app) (name : string) : bool :=
  bool_decide (name ∈ (devices app).*1).

(** [web_app.forced_states.get(name)] *)
Definition forced_states_get (app : web_app) (name : string) : option bool :=
  match forced_states app !! name with
  | Some v => v
  | None => None
  end.

(** ** [main.DeviceScheduler] *)

Record DeviceScheduler := mk_DeviceScheduler {
  price_timeframes : gmap string (list timeframe);
  max_retries : Z;
  retry_delay : Q;
  last_prices : option (list sample)
}.

(** [__init__] *)
Definition init_scheduler : DeviceScheduler :=
  {| price_timeframes := ∅; max_retries := 3; retry_delay := 2;
     last_prices := None |}.

Definition set_price_timeframes (self : DeviceScheduler)
    (m : gmap string (list timeframe)) : DeviceScheduler :=
  {| price_timeframes := m; max_retries := max_retries self;
     retry_delay := retry_delay self; last_prices := last_prices self |}.

Definition set_last_prices (self : DeviceScheduler)
    (prices : list sample) : DeviceScheduler :=
  {| price_timeframes := price_timeframes self;
     max_retries := max_retries self; retry_delay := retry_delay self;
     last_prices := Some prices |}.

Definition calculate_threshold_price (app : web_app) (device_name : string)
    (median_price : Q) : Q :=
  let threshold_config :=
    match device_thresholds app !! device_name with
    | None => mk_threshold_config "multiplier" DEFAULT_THRESHOLD_MULTIPLIER
    | Some c => c
    end in
  if String.eqb (cfg_type threshold_config) "fixed"
  then cfg_value threshold_config
  else (median_price * cfg_value threshold_config)%Q.

(** What [requests.get] hands to [fetch_electricity_prices]: a
    [RequestException], or the entries under [data.ee] (an absent key
    gives the empty list), prices still in the feed's unit. *)
Inductive response :=
| RequestException
| Payload (ee_prices : list sample).

(** [price_info.fetch_electricity_prices]: prices divided by 10, and the
    empty list when the request raised. *)
Definition fetch_electricity_prices (r : response) : list sample :=
  match r with
  | RequestException => []
  | Payload ee_prices =>
    map (fun price_data =>
           mk_sample (timestamp price_data) (price price_data / 10)%Q)
        ee_prices
  end.

(** The loop [for device_name in web_app.devices.keys(): ...] of
    [update_prices], over the keys still to visit; each iteration stores
    into [self.price_timeframes] in place. *)
Fixpoint fill_timeframes (app : web_app) (prices : list sample)
    (median_price : Q) (names : list string) (self : DeviceScheduler)
    : result DeviceScheduler :=
  match names with
  | [] => Ok self
  | device_name :: rest =>
    let threshold_price :=
      calculate_threshold_price app device_name median_price in
    timeframes ← efficient_timeframes prices threshold_price 0;
    fill_timeframes app prices median_price rest
      (set_price_timeframes self
         (<[device_name := timeframes]> (price_timeframes self)))
  end.

Definition update_prices (app : web_app) (self : DeviceScheduler)
    (r : response) : result DeviceScheduler :=
  let prices := fetch_electricity_prices r in
  match prices with
  | _ :: _ =>
    let self := set_last_prices self prices in
    let price_values := map price prices in
    median_price ← median price_values;
    let self := set_price_timeframes self ∅ in
    fill_timeframes app prices median_price (devices app).*1 self
  | [] => Ok self
  end.

(** The scheduler as another thread can read it while [update_prices]
    runs on a non-empty series: after the reset of the map and [k]
    completed iterations of the loop. *)
Definition refresh_state (app : web_app) (self : DeviceScheduler)
    (r : response) (k : nat) : result DeviceScheduler :=
  let prices := fetch_electricity_prices r in
  median_price ← median (map price prices);
  fill_timeframes app prices median_price (take k (devices app).*1)
    (set_price_timeframes (set_last_prices self prices) ∅).

(** The loop [for start, end, _, _ in timeframes: ...] with its early
    [return True]. *)
Fixpoint within_any (timeframes : list timeframe) (current_time : datetime)
    : bool :=
  match timeframes with
  | [] => false
  | tf :: rest =>
    if (start_time tf <=? wall current_time)
       && (wall current_time <? end_time tf)
    then true
    else within_any rest current_time
  end.

Definition should_be_on_for_device (self : DeviceScheduler)
    (device_name : string) (current_time : datetime) : bool :=
  let current_time :=
    match tzinfo current_time with
    | Some _ => replace_tzinfo_none current_time
    | None => current_time
    end in
  let timeframes := default [] (price_timeframes self !! device_name) in
  within_any timeframes current_time.

(** Ordering of two [datetime] values as Python makes it: two naive
    values by their fields, two aware values by the instants they
    denote, and [TypeError] for a naive and an aware value. *)
Definition datetime_le (a b : datetime) : result bool :=
  match tzinfo a, tzinfo b with
  | None, None => Ok (wall a <=? wall b)
  | Some off_a, Some off_b => Ok (wall a - off_a <=? wall b - off_b)
  | _, _ => Raise TypeError
  end.

Definition datetime_lt (a b : datetime) : result bool :=
  match tzinfo a, tzinfo b with
  | None, None => Ok (wall a <? wall b)
  | Some off_a, Some off_b => Ok (wall a - off_a <? wall b - off_b)
  | _, _ => Raise TypeError
  end.

(** The loop [for start, end, _, _ in timeframes: ...] on any
    [current_time], with the chained comparison
    [start <= current_time < end] made by [datetime_le] and then
    [datetime_lt]; the bounds of a frame are naive. *)
Fixpoint within_any_checked (timeframes : list timeframe)
    (current_time : datetime) : result bool :=
  match timeframes with
  | [] => Ok false
  | tf :: rest =>
    after_start ← datetime_le (mk_datetime (start_time tf) None) current_time;
    inside ←
      (if (after_start : bool)
       then datetime_lt current_time (mk_datetime (end_time tf) None)
       else Ok false);
    if (inside : bool) then Ok true
    else within_any_checked rest current_time
  end.

(** [should_be_on_for_device] with the comparisons checked, so that an
    exception it could raise shows. *)
Definition should_be_on_for_device_checked (self : DeviceScheduler)
    (device_name : string) (current_time : datetime) : result bool :=
  let current_time :=
    match tzinfo current_time with
    | Some _ => replace_tzinfo_none current_time
    | None => current_time
    end in
  let timeframes := default [] (price_timeframes self !! device_name) in
  within_any_checked timeframes current_time.

End LocalZone.

(** ** [price_info]: current price and statistics *)

Definition usec_per_hour : Z := 3600 * 1000000.
Definition usec_per_day : Z := 24 * usec_per_hour.

(** [dt.hour] and [dt.date()] (the day, as a count of days) of a naive
    datetime. *)
Definition hour_of (dt : Z) : Z := (dt / usec_per_hour) mod 24.
Definition date_of (dt : Z) : Z := dt / usec_per_day.

(** The loop [for price_data in prices: ...] of [get_current_price]. *)
Fixpoint current_price_loop (utcoffset : Z -> Z) (prices : list sample)
    (current_time : Z) : option Q :=
  match prices with
  | [] => None
  | price_data :: rest =>
    let price_time := fromtimestamp utcoffset (timestamp price_data) in
    if (hour_of price_time =? hour_of current_time)
       && (date_of price_time =? date_of current_time)
    then Some (price price_data)
    else current_price_loop utcoffset rest current_time
  end.

(** [get_current_price]; [current_time] is the reading of
    [datetime.now()]. *)
Definition get_current_price (utcoffset : Z -> Z) (prices : list sample)
    (current_time : Z) : option Q :=
  match prices with
  | [] => None
  | _ => current_price_loop utcoffset prices current_time
  end.

(** The builtins [min] and [max] on a list with first element [x]: the
    first smallest and the first largest element. *)
Definition py_min (x : Q) (l : list Q) : Q :=
  fold_left (fun best item => if Qltb item best then item else best) l x.

Definition py_max (x : Q) (l : list Q) : Q :=
  fold_left (fun best item => if Qltb best item then item else best) l x.

(** The dict [{'min': ..., 'max': ..., 'mean': ..., 'median': ...}]. *)
Record price_statistics := mk_price_statistics {
  stat_min : Q;
  stat_max : Q;
  stat_mean : Q;
  stat_median : Q
}.

(** [get_price_statistics]: [None] on an empty list. *)
Definition get_price_statistics (prices : list sample)
    : result (option price_statistics) :=
  match prices with
  | [] => Ok None
  | _ =>
    let price_values := map price prices in
    match price_values with
    | [] => Ok None
    | x :: l =>
      m ← mean price_values;
      md ← median price_values;
      Ok (Some (mk_price_statistics (py_min x l) (py_max x l) m md))
    end
  end.

(** ** The network: plugs reached through the [tapo] client *)

(** What a run leaves behind, in order. A network call is logged with
    its outcome; [Sleep] is [asyncio.sleep] with its delay in seconds. *)
Inductive event :=
| Connect (ip : string) (ok : bool)
| GetDeviceInfo (ip : string) (device_on : option bool)
| SwitchOn (ip : string) (ok : bool)
| SwitchOff (ip : string) (ok : bool)
| Sleep (seconds : Q).

(** The world: [script n] is the outcome of the [n]-th network call
    ([None]: the call raises; [Some b]: it succeeds, and [b] is
    [device_on] when the call is [get_device_info]); [calls] counts the
    calls made so far. *)
Record world := mk_world {
  script : nat -> option bool;
  calls : nat;
  log : list event
}.

(** One network call: take the next outcome, log the call. *)
Definition net_call (mk : option bool -> event) (w : world)
    : option bool * world :=
  let r := script w (calls w) in
  (r, {| script := script w; calls := S (calls w); log := log w ++ [mk r] |}).

(** [await self.get_device(ip)]: the handler is the address, [None] when
    the connection raises. *)
Definition get_device (ip : string) (w : world) : option string * world :=
  match net_call (fun r => Connect ip (bool_decide (is_Some r))) w with
  | (Some _, w) => (Some ip, w)
  | (None, w) => (None, w)
  end.

(** [await device.get_device_info()] giving [device_info.device_on]. *)
Definition get_device_info (device : string) (w : world)
    : option bool * world :=
  net_call (GetDeviceInfo device) w.

(** [await device.on()] and [await device.off()]; [None] when it raises. *)
Definition device_on_off (device : string) (turn_on : bool) (w : world)
    : option unit * world :=
  let mk r :=
    if turn_on then SwitchOn device (bool_decide (is_Some r))
    else SwitchOff device (bool_decide (is_Some r)) in
  match net_call mk w with
  | (Some _, w) => (Some tt, w)
  | (None, w) => (None, w)
  end.

(** [await asyncio.sleep(wait_time)] *)
Definition asyncio_sleep (wait_time : Q) (w : world) : world :=
  {| script := script w; calls := calls w; log := log w ++ [Sleep wait_time] |}.

(** [range(n)] *)
Definition range (n : Z) : list Z := map Z.of_nat (seq 0 (Z.to_nat n)).

(** The [try] block of [get_device_state]: [None] when it raised. *)
Definition try_get_state (ip : string) (w : world) : option bool * world :=
  match get_device ip w with
  | (Some device, w) => get_device_info device w
  | (None, w) => (None, w)
  end.

(** [for attempt in range(self.max_retries): ...] of [get_device_state],
    over the attempts still to make. *)
Fixpoint get_device_state_loop (self : DeviceScheduler) (name ip : string)
    (attempts : list Z) (w : world) : option bool * world :=
  match attempts with
  | [] => (None, w)
  | attempt :: rest =>
    match try_get_state ip w with
    | (Some device_on, w) => (Some device_on, w)
    | (None, w) =>
      if attempt <? max_retries self - 1 then
        let wait_time := (retry_delay self * inject_Z (2 ^ attempt))%Q in
        get_device_state_loop self name ip rest (asyncio_sleep wait_time w)
      else (None, w)
    end
  end.

Definition get_device_state (self : DeviceScheduler) (name ip : string)
    (w : world) : option bool * world :=
  get_device_state_loop self name ip (range (max_retries self)) w.

(** The [try] block of [set_device_state]. *)
Definition try_set_state (ip : string) (turn_on : bool) (w : world)
    : option unit * world :=
  match get_device ip w with
  | (Some device, w) => device_on_off device turn_on w
  | (None, w) => (None, w)
  end.

(** [for attempt in range(self.max_retries): ...] of [set_device_state]. *)
Fixpoint set_device_state_loop (self : DeviceScheduler) (name ip : string)
    (turn_on : bool) (attempts : list Z) (w : world) : bool * world :=
  match attempts with
  | [] => (false, w)
  | attempt :: rest =>
    match try_set_state ip turn_on w with
    | (Some _, w) => (true, w)
    | (None, w) =>
      if attempt <? max_retries self - 1 then
        let wait_time := (retry_delay self * inject_Z (2 ^ attempt))%Q in
        set_device_state_loop self name ip turn_on rest
          (asyncio_sleep wait_time w)
      else (false, w)
    end
  end.

Definition set_device_state (self : DeviceScheduler) (name ip : string)
    (turn_on : bool) (w : world) : bool * world :=
  set_device_state_loop self name ip turn_on (range (max_retries self)) w.

(** [test_device_connection]: one try, no retry. *)
Definition test_device_connection (ip : string) (w : world) : bool * world :=
  match get_device ip w with
  | (Some device, w) =>
    match get_device_info device w with
    | (Some _, w) => (true, w)
    | (None, w) => (false, w)
    end
  | (None, w) => (false, w)
  end.

(** ** One reconciliation tick: [manage_devices] *)

(** Lines 157 to 165: the forced state when there is one, else the
    schedule. *)
Definition target_state_of (app : web_app) (self : DeviceScheduler)
    (name : string) (current_time : datetime) : bool :=
  let forced_state := forced_states_get app name in
  match forced_state with
  | Some forced => forced
  | None => should_be_on_for_device self name current_time
  end.

(** The body of [for name, ip in devices_snapshot.items(): ...]. *)
Definition manage_device (app : web_app) (self : DeviceScheduler)
    (current_time : datetime) (name ip : string) (w : world) : world :=
  if negb (in_devices app name) then w
  else
    let target_state := target_state_of app self name current_time in
    let '(is_on, w) := get_device_state self name ip w in
    match is_on with
    | None => w
    | Some is_on =>
      if target_state && negb is_on then
        (set_device_state self name ip true w).2
      else if negb target_state && is_on then
        (set_device_state self name ip false w).2
      else w
    end.

(** The loop over the snapshot, in the dict's order. *)
Fixpoint manage_devices_loop (app : web_app) (self : DeviceScheduler)
    (current_time : datetime) (snapshot : list (string * string))
    (w : world) : world :=
  match snapshot with
  | [] => w
  | (name, ip) :: rest =>
    manage_devices_loop app self current_time rest
      (manage_device app self current_time name ip w)
  end.

(** [manage_devices]; [now] is the reading of [datetime.now()], which is
    naive. *)
Definition manage_devices (app : web_app) (self : DeviceScheduler)
    (now : Z) (w : world) : world :=
  let current_time := mk_datetime now None in
  let devices_snapshot := devices app in
  manage_devices_loop app self current_time devices_snapshot w.

(** * Vocabulary of the properties, and example data *)

(** The series of the specification's example: four samples, fifteen
    minutes apart from [t0], priced 10, 5, 5 and 12. *)
Definition example_series (t0 : Z) : list sample :=
  [ mk_sample t0 10; mk_sample (t0 + 900) 5;
    mk_sample (t0 + 1800) 5; mk_sample (t0 + 2700) 12 ].

(** ** Maximal runs of cheap samples, and their frames

    [runs_from is_cheap i rs]: [rs] lists, in order, the maximal runs
    [(a, b)] (the positions [a] up to [b - 1]) of cheap samples found at
    or after position [i]. *)
Inductive runs_from (is_cheap : list bool) : nat -> list (nat * nat) -> Prop :=
| runs_end i :
    (length is_cheap <= i)%nat -> runs_from is_cheap i []
| runs_skip i rs :
    is_cheap !! i = Some false ->
    runs_from is_cheap (S i) rs -> runs_from is_cheap i rs
| runs_take i j rs :
    (i < j <= length is_cheap)%nat ->
    (forall k, (i <= k < j)%nat -> is_cheap !! k = Some true) ->
    ((j < length is_cheap)%nat -> is_cheap !! j = Some false) ->
    runs_from is_cheap j rs -> runs_from is_cheap i ((i, j) :: rs).

(** Timestamp of the sample at a position (0 out of range). *)
Definition ts_at (prices : list sample) (k : nat) : Z :=
  default 0 (timestamp <$> prices !! k).

Section Frames.

Variable utcoffset : Z -> Z.
Variable prices : list sample.
Variable min_duration_minutes : Z.

(** The time frame the code builds for the run [(a, b)]. *)
Definition run_frame (r : nat * nat) : timeframe :=
  let frame_prices := map price (take (r.2 - r.1) (drop r.1 prices)) in
  {| start_time := fromtimestamp utcoffset (ts_at prices r.1);
     end_time :=
       fromtimestamp utcoffset (ts_at prices (r.2 - 1)) + timedelta_minutes 15;
     avg_price :=
       Qred (Qsum frame_prices / inject_Z (Z.of_nat (length frame_prices)));
     duration_minutes := Z.of_nat (length frame_prices) * 15 |}.

(** The frames of the runs that pass the minimum duration. *)
Fixpoint run_frames (rs : list (nat * nat)) : list timeframe :=
  match rs with
  | [] => []
  | r :: rs =>
    if min_duration_minutes <=? duration_minutes (run_frame r)
    then run_frame r :: run_frames rs
    else run_frames rs
  end.

End Frames.

(** ** Series whose samples are a sampling interval or more apart *)

(** Consecutive samples are at least 15 minutes (900 s) apart: sorted,
    no duplicates, gaps allowed. *)
Definition spaced (prices : list sample) : Prop :=
  forall k s s', prices !! k = Some s -> prices !! S k = Some s' ->
    timestamp s + 900 <= timestamp s'.

(** Consecutive samples are exactly 15 minutes apart: no gap. *)
Definition regular (prices : list sample) : Prop :=
  forall k s s', prices !! k = Some s -> prices !! S k = Some s' ->
    timestamp s' = timestamp s + 900.

(** The local zone keeps one UTC offset over the whole series (no
    change of daylight saving time inside it). *)
Definition zone_constant (utcoffset : Z -> Z) (off : Z) (prices : list sample)
    : Prop :=
  forall s, s ∈ prices -> utcoffset (timestamp s) = off.


(** Checkers for concrete series. *)
Fixpoint spacedb (prices : list sample) : bool :=
  match prices with
  | s :: (s' :: _) as rest => (timestamp s + 900 <=? timestamp s') && spacedb rest
  | _ => true
  end.

Fixpoint regularb (prices : list sample) : bool :=
  match prices with
  | s :: (s' :: _) as rest => (timestamp s' =? timestamp s + 900) && regularb rest
  | _ => true
  end.

(** A series with a gap: three cheap samples at 00:00, 00:15 and 01:00. *)
Definition gap_series : list sample :=
  [ mk_sample 0 5; mk_sample 900 5; mk_sample 3600 5 ].

(** A series with a sample priced at the threshold 8 next to a lone
    cheap sample. *)
Definition boundary_series : list sample :=
  [ mk_sample 0 10; mk_sample 900 5; mk_sample 1800 8; mk_sample 2700 12 ].

(** A plug named boiler with one cached frame, 00:15 to 00:45. *)
Definition boiler_app (forced : option bool) : web_app :=
  {| devices := [("boiler", "192.168.1.10")];
     device_thresholds := ∅;
     forced_states := {["boiler" := forced]} |}.

Definition boiler_scheduler : DeviceScheduler :=
  set_price_timeframes init_scheduler
    {["boiler" := [mk_timeframe 900000000 2700000000 5 30]]}.

(** A plug with a multiplier of 1.5. *)
Definition multiplier_app : web_app :=
  {| devices := [("boiler", "192.168.1.10")];
     device_thresholds := {["boiler" := mk_threshold_config "multiplier" (3 # 2)]};
     forced_states := {["boiler" := None]} |}.

(** The frames a refresh computes for a device. *)
Definition frames_of_device (utcoffset : Z -> Z) (app : web_app)
    (prices : list sample) (median_price : Q) (name : string) : list timeframe :=
  match efficient_timeframes utcoffset prices
          (calculate_threshold_price app name median_price) 0 with
  | Ok ws => ws
  | Raise _ => []
  end.

(** The claim of C9, as a property of one refresh: whatever state a
    reader finds while the refresh runs holds either the map of before
    or the map of the end. *)
Definition snapshot_swap (utcoffset : Z -> Z) (app : web_app)
    (self : DeviceScheduler) (r : response) : Prop :=
  forall k st,
    refresh_state utcoffset app self r k = Ok st ->
    price_timeframes st = price_timeframes self
    \/ exists final,
         update_prices utcoffset app self r = Ok final
         /\ price_timeframes st = price_timeframes final.

(** Two plugs with frames cached by an earlier refresh, and a feed of
    four samples (prices in the feed's unit, ten times senti/kWh). *)
Definition two_plug_app : web_app :=
  {| devices := [("boiler", "192.168.1.10"); ("heater", "192.168.1.11")];
     device_thresholds :=
       {["boiler" := mk_threshold_config "fixed" 8;
         "heater" := mk_threshold_config "fixed" 11]};
     forced_states := {["boiler" := None; "heater" := None]} |}.

Definition two_plug_scheduler : DeviceScheduler :=
  set_price_timeframes init_scheduler
    {["boiler" := [mk_timeframe 0 900000000 4 15];
      "heater" := [mk_timeframe 0 900000000 4 15]]}.

Definition two_plug_feed : response :=
  Payload [ mk_sample 86400 100; mk_sample 87300 50;
            mk_sample 88200 50; mk_sample 89100 120 ].

(** ** Logs of retried device access *)

(** The events of one attempt, and whether it succeeded: the connection
    fails, or it succeeds and the one call on the device follows. *)
Inductive attempt : list event -> bool -> Prop :=
| attempt_no_connect ip : attempt [Connect ip false] false
| attempt_info ip r :
    attempt [Connect ip true; GetDeviceInfo ip r] (bool_decide (is_Some r))
| attempt_on ip ok : attempt [Connect ip true; SwitchOn ip ok] ok
| attempt_off ip ok : attempt [Connect ip true; SwitchOff ip ok] ok.

(** [retry_log delay k n ok evs]: [evs] is the log of [n] attempts
    numbered from [k]; all but the last failed, the last one succeeded
    or not as [ok] says; after the failed attempt number [j] that is not
    the last comes one sleep of [delay * 2^j]; nothing follows the last
    attempt. *)
Inductive retry_log (delay : Q) : nat -> nat -> bool -> list event -> Prop :=
| retry_last k evs ok :
    attempt evs ok -> retry_log delay k 1 ok evs
| retry_more k n evs rest ok :
    attempt evs false ->
    retry_log delay (S k) n ok rest ->
    retry_log delay k (S n) ok
      (evs ++ Sleep (delay * inject_Z (2 ^ Z.of_nat k)) :: rest).

(** The delays slept, in order. *)
Fixpoint sleeps_in (evs : list event) : list Q :=
  match evs with
  | [] => []
  | Sleep d :: evs => d :: sleeps_in evs
  | _ :: evs => sleeps_in evs
  end.

(** The waits between [n] attempts: [retry_delay * 2^k] for
    [k = 0 .. n-2]. *)
Definition backoff_waits (self : DeviceScheduler) (n : nat) : list Q :=
  map (fun k => (retry_delay self * inject_Z (2 ^ Z.of_nat k))%Q) (seq 0 (n - 1)).

(** What a retried operation leaves in the log, from world [w] to [w']. *)
Definition retries_with_backoff (self : DeviceScheduler) (w w' : world)
    (ok : bool) : Prop :=
  exists evs n,
    log w' = log w ++ evs
    /\ retry_log (retry_delay self) 0 n ok evs
    /\ Z.of_nat n <= max_retries self
    /\ (ok = false -> Z.of_nat n = max_retries self)
    /\ sleeps_in evs = backoff_waits self n.

(** A command to switch a plug. *)
Definition is_switch (e : event) : bool :=
  match e with
  | SwitchOn _ _ | SwitchOff _ _ => true
  | _ => false
  end.

(** The shape the two retry loops share, over any [try] block. *)
Fixpoint retry_generic {A} (self : DeviceScheduler)
    (try_block : world -> option A * world) (attempts : list Z) (w : world)
    : option A * world :=
  match attempts with
  | [] => (None, w)
  | attempt :: rest =>
    match try_block w with
    | (Some a, w) => (Some a, w)
    | (None, w) =>
      if attempt <? max_retries self - 1 then
        retry_generic self try_block rest
          (asyncio_sleep (retry_delay self * inject_Z (2 ^ attempt))%Q w)
      else (None, w)
    end
  end.

(** A [try] block that makes exactly one attempt. *)
Definition one_attempt {A} (try_block : world -> option A * world) : Prop :=
  forall w, exists evs,
    log (try_block w).2 = log w ++ evs
    /\ attempt evs (bool_decide (is_Some (try_block w).1)).

(** A network where the first connection fails, the second succeeds but
    the read fails, and the third attempt succeeds and reads "off". *)
Definition flaky_world : world :=
  {| script := fun n => nth n [None; Some true; None; Some true; Some false] None;
     calls := 0; log := [] |}.

(** A network where nothing answers. *)
Definition dead_world : world :=
  {| script := fun _ => None; calls := 0; log := [] |}.

(** A tick at 00:00 with both plugs in auto mode and inside their cached
    frame: the boiler never answers, the heater answers and is off. *)
Definition boiler_down_world : world :=
  {| script := fun n =>
       nth n [None; None; None; Some true; Some false; Some true; Some true] None;
     calls := 0; log := [] |}.

(** ** Further vocabulary *)



(** A zone that sets its clocks back by one hour at timestamp 1800 (the
    end of daylight saving time). *)
Definition fall_back_offset (ts : Z) : Z := if ts <? 1800 then 3600 else 0.

(** A feed of two samples whose prices, once divided by 10, have median
    10. *)
Definition median_feed : response :=
  Payload [ mk_sample 0 120; mk_sample 900 80 ].

(** A network that answers every call, where every plug reports "off". *)
Definition healthy_world : world :=
  {| script := fun n => if Nat.even n then Some true else Some false;
     calls := 0; log := [] |}.

(** Two naive datetimes in the same clock hour of the same day. *)
Definition same_clock_hour (dt1 dt2 : Z) : Prop :=
  dt1 / usec_per_hour = dt2 / usec_per_hour.

(** The event concerns the plug at [ip] (a sleep concerns none). *)
Definition event_for (ip : string) (e : event) : Prop :=
  match e with
  | Sleep _ => True
  | Connect i _ | GetDeviceInfo i _ | SwitchOn i _ | SwitchOff i _ => i = ip
  end.

(** A command, if the event is one, switches the way [turn_on] says. *)
Definition switch_toward (turn_on : bool) (e : event) : Prop :=
  match e with
  | SwitchOn _ _ => turn_on = true
  | SwitchOff _ _ => turn_on = false
  | _ => True
  end.

(** The event is a call that raised. *)
Definition is_failure (e : event) : bool :=
  match e with
  | Connect _ ok | SwitchOn _ ok | SwitchOff _ ok => negb ok
  | GetDeviceInfo _ r => negb (bool_decide (is_Some r))
  | Sleep _ => false
  end.

(** Sum of the [duration_minutes] of a list of frames. *)
Definition total_minutes (ws : list timeframe) : Z :=
  fold_right (fun w acc => duration_minutes w + acc) 0 ws.

(** The longest a retried operation sleeps in all:
    [retry_delay * (2^(max_retries - 1) - 1)] seconds. *)
Definition max_backoff (self : DeviceScheduler) : Q :=
  retry_delay self * (inject_Z (2 ^ (max_retries self - 1)) - 1).

(** Number of positions the runs cover. *)
Definition run_lengths (rs : list (nat * nat)) : nat :=
  fold_right (fun r acc => (r.2 - r.1 + acc)%nat) 0%nat rs.

(** How many samples are priced below the threshold. *)
Definition count_cheap (prices : list sample) (threshold : Q) : nat :=
  length (List.filter (fun p => Qltb (price p) threshold) prices).

(** * Segmentation: what [efficient_timeframes] computes *)

Example example_series_frames :
  efficient_timeframes (fun _ => 0) (example_series 0) 8 0
  = Ok [mk_timeframe 900000000 2700000000 5 30].
Proof. vm_compute. reflexivity. Qed.

Lemma index_lookup {A} (l : list A) i x : l !! i = Some x -> index l i = Ok x.
Proof. unfold index. now intros ->. Qed.

Lemma Qltb_lt a b : Qltb a b = true <-> (a < b)%Q.
Proof.
  unfold Qltb. rewrite negb_true_iff, <- not_true_iff_false, Qle_bool_iff.
  split; [apply Qnot_le_lt | apply Qlt_not_le].
Qed.

Lemma is_cheap_of_length prices threshold :
  length (is_cheap_of prices threshold) = length prices.
Proof. apply length_map. Qed.

Lemma is_cheap_of_lookup prices threshold k s :
  prices !! k = Some s ->
  is_cheap_of prices threshold !! k = Some (Qltb (price s) threshold).
Proof. intros H. unfold is_cheap_of. now rewrite list_lookup_fmap, H. Qed.

(** The inner loop stops at the end of the run it starts in. *)
Lemma collect_cheap_run fuel (prices : list sample) (c : list bool) :
  length c = length prices ->
  forall i j frame_prices,
    (i <= j <= length prices)%nat ->
    (forall k, (i <= k < j)%nat -> c !! k = Some true) ->
    ((j < length prices)%nat -> c !! j = Some false) ->
    (j - i < fuel)%nat ->
    collect_cheap fuel prices c i frame_prices
    = Ok (j, frame_prices ++ map price (take (j - i) (drop i prices))).
Proof.
  intros Hlen. induction fuel as [|fuel IH]; intros i j fp Hij Htrue Hstop Hfuel.
  - lia.
  - simpl. destruct (Nat.ltb_spec i (length prices)) as [Hi|Hi].
    + destruct (decide (i = j)) as [->|Hne].
      * rewrite (index_lookup _ _ _ (Hstop Hi)). simpl.
        rewrite Nat.sub_diag, take_0. simpl. now rewrite app_nil_r.
      * rewrite (index_lookup c i true) by (apply Htrue; lia). simpl.
        destruct (lookup_lt_is_Some_2 prices i Hi) as [p Hp].
        rewrite (index_lookup _ _ _ Hp). simpl.
        rewrite (IH (S i) j);
          [| lia | intros; apply Htrue; lia | exact Hstop | lia].
        rewrite (drop_S _ _ _ Hp).
        replace (j - i)%nat with (S (j - S i)) by lia.
        simpl. now rewrite <- app_assoc.
    + replace (j - i)%nat with 0%nat by lia. rewrite take_0. simpl.
      rewrite app_nil_r. f_equal. f_equal. lia.
Qed.

(** Every position starts a (possibly empty) stretch of cheap samples
    that ends at the first sample that is not cheap, or with the list. *)
Lemma run_end (c : list bool) i :
  (i <= length c)%nat ->
  exists j, (i <= j <= length c)%nat
    /\ (forall k, (i <= k < j)%nat -> c !! k = Some true)
    /\ ((j < length c)%nat -> c !! j = Some false).
Proof.
  remember (length c - i)%nat as d eqn:Hd. revert i Hd.
  induction d as [|d IH]; intros i Hd Hi.
  - exists i. repeat split; intros; lia.
  - destruct (c !! i) as [[|]|] eqn:Hc.
    + destruct (IH (S i)) as (j & Hj & Htrue & Hstop); [lia | lia |].
      exists j. repeat split; try lia; [|exact Hstop].
      intros k Hk. destruct (decide (k = i)) as [->|]; [exact Hc|].
      apply Htrue. lia.
    + exists i. repeat split; intros; try lia. exact Hc.
    + apply lookup_ge_None in Hc. lia.
Qed.

Lemma mean_cons x l :
  mean (x :: l)
  = Ok (Qred (Qsum (x :: l) / inject_Z (Z.of_nat (length (x :: l))))).
Proof. reflexivity. Qed.

Lemma bind_Ok {A B} (a : A) (k : A -> result B) : (Ok a ≫= k) = k a.
Proof. reflexivity. Qed.

Lemma scan_timeframes_S utcoffset fuel prices is_cheap m i all_timeframes :
  scan_timeframes utcoffset (S fuel) prices is_cheap m i all_timeframes
  = if (i <? length prices)%nat then
      c ← index is_cheap i;
      if (c : bool) then
        '(j, frame_prices) ←
          collect_cheap (S (length prices)) prices is_cheap i [];
        first ← index prices i;
        last ← index prices (j - 1);
        avg_price ← mean frame_prices;
        if (m <=? Z.of_nat (length frame_prices) * 15) then
          scan_timeframes utcoffset fuel prices is_cheap m j
            (all_timeframes ++
               [mk_timeframe (fromtimestamp utcoffset (timestamp first))
                  (fromtimestamp utcoffset (timestamp last) + timedelta_minutes 15)
                  avg_price (Z.of_nat (length frame_prices) * 15)])
        else scan_timeframes utcoffset fuel prices is_cheap m j all_timeframes
      else scan_timeframes utcoffset fuel prices is_cheap m (S i) all_timeframes
    else Ok all_timeframes.
Proof. reflexivity. Qed.

Lemma run_frame_eq utcoffset prices i j p q :
  (i < j)%nat -> prices !! i = Some p -> prices !! (j - 1)%nat = Some q ->
  let frame_prices := price p :: map price (take (j - S i) (drop (S i) prices)) in
  run_frame utcoffset prices (i, j)
  = {| start_time := fromtimestamp utcoffset (timestamp p);
       end_time := fromtimestamp utcoffset (timestamp q) + timedelta_minutes 15;
       avg_price :=
         Qred (Qsum frame_prices / inject_Z (Z.of_nat (length frame_prices)));
       duration_minutes := Z.of_nat (length frame_prices) * 15 |}.
Proof.
  intros Hlt Hp Hq. unfold run_frame, ts_at. cbn [fst snd]. rewrite Hp, Hq.
  rewrite (drop_S _ _ _ Hp).
  replace (j - i)%nat with (S (j - S i)) by lia. reflexivity.
Qed.

(** The outer loop, started at [i] with enough fuel, terminates and
    appends the frames of the maximal runs from [i] on. *)
Lemma scan_timeframes_runs utcoffset (prices : list sample) (c : list bool) m :
  length c = length prices ->
  forall fuel i all_timeframes,
    (length prices - i < fuel)%nat ->
    exists rs,
      runs_from c i rs
      /\ scan_timeframes utcoffset fuel prices c m i all_timeframes
         = Ok (all_timeframes ++ run_frames utcoffset prices m rs).
Proof.
  intros Hlen. induction fuel as [|fuel IH]; intros i acc Hfuel; [lia|].
  rewrite scan_timeframes_S.
  destruct (Nat.ltb_spec i (length prices)) as [Hi|Hi].
  - destruct (c !! i) as [[|]|] eqn:Hc.
    + (* a run starts at [i] *)
      destruct (run_end c i) as (j & Hj & Htrue & Hstop); [lia|].
      assert (i < j)%nat as Hlt.
      { destruct (decide (i = j)) as [->|]; [|lia].
        rewrite Hstop in Hc by lia. discriminate. }
      rewrite (index_lookup _ _ _ Hc), bind_Ok.
      rewrite (collect_cheap_run _ prices c Hlen i j []); try lia; try assumption;
        [| intros; apply Hstop; lia].
      rewrite bind_Ok.
      destruct (lookup_lt_is_Some_2 prices i Hi) as [p Hp].
      destruct (lookup_lt_is_Some_2 prices (j - 1)) as [q Hq]; [lia|].
      rewrite (index_lookup _ _ _ Hp), bind_Ok, (index_lookup _ _ _ Hq), bind_Ok.
      rewrite (drop_S _ _ _ Hp).
      replace (j - i)%nat with (S (j - S i)) by lia.
      cbn [take map app]. rewrite mean_cons, bind_Ok.
      rewrite <- (run_frame_eq utcoffset prices i j p q Hlt Hp Hq).
      pose proof (run_frame_eq utcoffset prices i j p q Hlt Hp Hq) as Hframe.
      cbv zeta in Hframe.
      apply (f_equal duration_minutes) in Hframe. cbn [duration_minutes] in Hframe.
      rewrite <- Hframe.
      destruct (m <=? duration_minutes (run_frame utcoffset prices (i, j))) eqn:Hm.
      * destruct (IH j (acc ++ [run_frame utcoffset prices (i, j)]))
          as (rs & Hrs & Hscan); [lia|].
        exists ((i, j) :: rs). split.
        { apply runs_take; auto; lia. }
        rewrite Hscan. cbn [run_frames]. rewrite Hm. now rewrite <- app_assoc.
      * destruct (IH j acc) as (rs & Hrs & Hscan); [lia|].
        exists ((i, j) :: rs). split.
        { apply runs_take; auto; lia. }
        rewrite Hscan. cbn [run_frames]. now rewrite Hm.
    + rewrite (index_lookup _ _ _ Hc), bind_Ok.
      destruct (IH (S i) acc) as (rs & Hrs & Hscan); [lia|].
      exists rs. split; [now apply runs_skip | exact Hscan].
    + apply lookup_ge_None in Hc. lia.
  - exists []. split; [apply runs_end; lia | simpl; now rewrite app_nil_r].
Qed.

(** [efficient_timeframes] always returns: the frames of the maximal runs
    of cheap samples of the whole series. *)
Lemma efficient_timeframes_runs utcoffset prices threshold m :
  exists rs,
    runs_from (is_cheap_of prices threshold) 0 rs
    /\ efficient_timeframes utcoffset prices threshold m
       = Ok (run_frames utcoffset prices m rs).
Proof.
  destruct (scan_timeframes_runs utcoffset prices (is_cheap_of prices threshold) m
              (is_cheap_of_length _ _) (S (length prices)) 0%nat [])
    as (rs & Hrs & Hscan); [lia|].
  destruct prices as [|p l].
  - exists []. split; [apply runs_end; simpl; lia | reflexivity].
  - exists rs. split; [exact Hrs | exact Hscan].
Qed.

(** ** Properties of the runs *)

Lemma runs_from_bounds c i rs :
  runs_from c i rs ->
  Forall (fun r => (i <= r.1 < r.2)%nat /\ (r.2 <= length c)%nat) rs.
Proof.
  induction 1 as [i Hi | i rs Hc Hrs IH | i j rs Hij Htrue Hstop Hrs IH].
  - constructor.
  - eapply Forall_impl; [exact IH|]. simpl. intros r ?. lia.
  - constructor; [simpl; lia|].
    eapply Forall_impl; [exact IH|]. simpl. intros r ?. lia.
Qed.

Lemma runs_from_cheap c i rs :
  runs_from c i rs ->
  Forall (fun r => forall k, (r.1 <= k < r.2)%nat -> c !! k = Some true) rs.
Proof. induction 1; auto. Qed.



(** Every maximal run of cheap samples at or after [i] is listed. *)
Lemma runs_from_complete c i rs :
  runs_from c i rs ->
  forall a b,
    (i <= a < b)%nat -> (b <= length c)%nat ->
    (forall k, (a <= k < b)%nat -> c !! k = Some true) ->
    (i = a \/ c !! (a - 1)%nat = Some false) ->
    ((b < length c)%nat -> c !! b = Some false) ->
    (a, b) ∈ rs.
Proof.
  induction 1 as [i Hi | i rs Hc Hrs IH | i j rs Hij Htrue Hstop Hrs IH];
    intros a b Hab Hb Hrun Hleft Hright.
  - lia.
  - assert (i <> a) as Hne.
    { intros ->. rewrite Hrun in Hc by lia. discriminate. }
    apply IH; auto; try lia.
    destruct Hleft as [?|Hleft]; [lia|]. now right.
  - destruct (decide (i = a)) as [->|Hne].
    + assert (j = b) as ->; [|now left].
      destruct (Nat.lt_trichotomy j b) as [Hlt|[?|Hgt]]; [|assumption|].
      * rewrite Hrun in Hstop by lia. specialize (Hstop ltac:(lia)). discriminate.
      * rewrite Htrue in Hright by lia. specialize (Hright ltac:(lia)). discriminate.
    + destruct Hleft as [?|Hleft]; [lia|].
      assert (j <= a - 1)%nat as Hja.
      { destruct (Nat.le_gt_cases j (a - 1)) as [?|Hgt]; [assumption|].
        rewrite Htrue in Hleft by lia. discriminate. }
      right. apply IH; auto; try lia.
      all: destruct (decide (j = a)); [now left | now right].
Qed.

(** The runs of a classification are unique. *)
Lemma runs_from_unique c i rs rs' :
  runs_from c i rs -> runs_from c i rs' -> rs = rs'.
Proof.
  intros H. revert rs'.
  induction H as [i Hi | i rs Hc Hrs IH | i j rs Hij Htrue Hstop Hrs IH];
    intros rs' H'.
  - inversion H' as [| ? ? Hc' | ? j' ? Hij' Htrue']; subst; [reflexivity | |].
    + apply lookup_lt_Some in Hc'. lia.
    + lia.
  - inversion H' as [? Hi' | | ? j' ? Hij' Htrue']; subst.
    + apply lookup_lt_Some in Hc. lia.
    + now apply IH.
    + rewrite Htrue' in Hc by lia. discriminate.
  - inversion H' as [? Hi' | ? ? Hc' | ? j' rs0 Hij' Htrue' Hstop' Hrs']; subst.
    + lia.
    + rewrite Htrue in Hc' by lia. discriminate.
    + assert (j = j') as <-.
      { destruct (Nat.lt_trichotomy j j') as [Hlt|[?|Hgt]]; [|assumption|].
        - rewrite Htrue' in Hstop by lia. specialize (Hstop ltac:(lia)). discriminate.
        - rewrite Htrue in Hstop' by lia. specialize (Hstop' ltac:(lia)). discriminate. }
      f_equal. now apply IH.
Qed.

(** ** Properties of the frames *)

Lemma run_frames_Forall utcoffset prices m (P : timeframe -> Prop) rs :
  Forall (fun r => P (run_frame utcoffset prices r)) rs ->
  Forall P (run_frames utcoffset prices m rs).
Proof.
  induction 1 as [|r rs Hr Hrs IH]; simpl; [constructor|].
  destruct (m <=? _); [constructor|]; assumption.
Qed.


Lemma run_frames_elem utcoffset prices m w rs :
  w ∈ run_frames utcoffset prices m rs ->
  exists r, r ∈ rs /\ w = run_frame utcoffset prices r.
Proof.
  induction rs as [|r rs IH]; simpl; [now intros ?%elem_of_nil|].
  destruct (m <=? _).
  - intros [->|Hw]%elem_of_cons.
    + exists r. split; [left | reflexivity].
    + destruct (IH Hw) as (r' & ? & ?). exists r'. split; [now right | assumption].
  - intros Hw. destruct (IH Hw) as (r' & ? & ?). exists r'. split; [now right | assumption].
Qed.

Lemma run_frame_duration utcoffset prices r :
  (r.2 <= length prices)%nat ->
  duration_minutes (run_frame utcoffset prices r) = Z.of_nat (r.2 - r.1) * 15.
Proof.
  intros Hr. unfold run_frame. cbn [duration_minutes].
  rewrite length_map, length_take, length_drop. f_equal. lia.
Qed.

Lemma ts_at_lookup prices k s : prices !! k = Some s -> ts_at prices k = timestamp s.
Proof. unfold ts_at. now intros ->. Qed.

Lemma spaced_ts_at prices :
  spaced prices ->
  forall d a, (a + d < length prices)%nat ->
    ts_at prices a + 900 * Z.of_nat d <= ts_at prices (a + d).
Proof.
  intros Hsp. induction d as [|d IH]; intros a Ha.
  - rewrite Nat.add_0_r. lia.
  - destruct (lookup_lt_is_Some_2 prices (a + d)) as [s Hs]; [lia|].
    destruct (lookup_lt_is_Some_2 prices (S (a + d))) as [s' Hs']; [lia|].
    specialize (IH a ltac:(lia)). pose proof (Hsp _ _ _ Hs Hs') as Hstep.
    replace (a + S d)%nat with (S (a + d)) by lia.
    rewrite (ts_at_lookup _ _ _ Hs'). rewrite (ts_at_lookup _ _ _ Hs) in IH. lia.
Qed.

Lemma regular_ts_at prices :
  regular prices ->
  forall d a, (a + d < length prices)%nat ->
    ts_at prices (a + d) = ts_at prices a + 900 * Z.of_nat d.
Proof.
  intros Hsp. induction d as [|d IH]; intros a Ha.
  - rewrite Nat.add_0_r. lia.
  - destruct (lookup_lt_is_Some_2 prices (a + d)) as [s Hs]; [lia|].
    destruct (lookup_lt_is_Some_2 prices (S (a + d))) as [s' Hs']; [lia|].
    specialize (IH a ltac:(lia)). pose proof (Hsp _ _ _ Hs Hs') as Hstep.
    replace (a + S d)%nat with (S (a + d)) by lia.
    rewrite (ts_at_lookup _ _ _ Hs'). rewrite (ts_at_lookup _ _ _ Hs) in IH. lia.
Qed.

Lemma fromtimestamp_ts_at utcoffset off prices k :
  zone_constant utcoffset off prices -> (k < length prices)%nat ->
  fromtimestamp utcoffset (ts_at prices k) = (ts_at prices k + off) * 1000000.
Proof.
  intros Hz Hk. destruct (lookup_lt_is_Some_2 prices k Hk) as [s Hs].
  unfold fromtimestamp. rewrite (ts_at_lookup _ _ _ Hs).
  rewrite (Hz s); [reflexivity|]. eapply list_elem_of_lookup_2; eauto.
Qed.

(** Start and end of the frame of a run, in a zone of constant offset. *)
Lemma run_frame_times utcoffset off prices r :
  zone_constant utcoffset off prices ->
  (r.1 < r.2)%nat -> (r.2 <= length prices)%nat ->
  start_time (run_frame utcoffset prices r) = (ts_at prices r.1 + off) * 1000000
  /\ end_time (run_frame utcoffset prices r)
     = (ts_at prices (r.2 - 1) + off + 900) * 1000000.
Proof.
  intros Hz Hlt Hle. unfold run_frame. cbn [start_time end_time].
  rewrite !(fromtimestamp_ts_at utcoffset off) by (assumption || lia).
  unfold timedelta_minutes, usec_per_minute. lia.
Qed.


Lemma run_frame_span_regular utcoffset off prices r :
  zone_constant utcoffset off prices -> regular prices ->
  (r.1 < r.2)%nat -> (r.2 <= length prices)%nat ->
  let w := run_frame utcoffset prices r in
  timedelta_minutes (duration_minutes w) = end_time w - start_time w.
Proof.
  intros Hz Hsp Hlt Hle w. subst w.
  destruct (run_frame_times utcoffset off prices r Hz Hlt Hle) as [-> ->].
  rewrite run_frame_duration by assumption.
  pose proof (regular_ts_at prices Hsp (r.2 - 1 - r.1) r.1 ltac:(lia)) as Hts.
  replace (r.1 + (r.2 - 1 - r.1))%nat with (r.2 - 1)%nat in Hts by lia.
  unfold timedelta_minutes, usec_per_minute. lia.
Qed.







Lemma spacedb_spaced prices : spacedb prices = true -> spaced prices.
Proof.
  induction prices as [|s [|s' rest] IH]; intros Hb k x y Hx Hy.
  - discriminate.
  - destruct k; discriminate.
  - cbn [spacedb] in Hb. apply andb_true_iff in Hb as [Hle Hb]. apply Z.leb_le in Hle.
    destruct k as [|k].
    + simpl in Hx, Hy. inversion Hx; inversion Hy; subst. exact Hle.
    + exact (IH Hb k x y Hx Hy).
Defined.

Lemma regularb_regular prices : regularb prices = true -> regular prices.
Proof.
  induction prices as [|s [|s' rest] IH]; intros Hb k x y Hx Hy.
  - discriminate.
  - destruct k; discriminate.
  - cbn [regularb] in Hb. apply andb_true_iff in Hb as [Hle Hb]. apply Z.eqb_eq in Hle.
    destruct k as [|k].
    + simpl in Hx, Hy. inversion Hx; inversion Hy; subst. exact Hle.
    + exact (IH Hb k x y Hx Hy).
Defined.





Example fall_back_frames :
  efficient_timeframes fall_back_offset (example_series 0) 8 0
  = Ok [mk_timeframe 4500000000 2700000000 5 30].
Proof. vm_compute. reflexivity. Qed.

(** C2 also fails, on a series without any gap, when the local clock
    changes inside a run: with clocks set back by an hour between the
    two cheap samples of the example series, the frame starts at 01:15
    and ends at 00:45. *)
Lemma clock_change_breaks_frames :
  regular (example_series 0)
  /\ ~ (forall prices threshold ws,
          regular prices ->
          efficient_timeframes fall_back_offset prices threshold 0 = Ok ws ->
          Forall (fun w => start_time w < end_time w
                    /\ timedelta_minutes (duration_minutes w)
                       = end_time w - start_time w) ws).
Proof.
  assert (regular (example_series 0)) as Hreg
    by (apply regularb_regular; reflexivity).
  split; [exact Hreg|]. intros H.
  pose proof (H (example_series 0) 8%Q _ Hreg fall_back_frames) as Hall.
  apply Forall_cons in Hall as [[Hlt _] _]. vm_compute in Hlt. discriminate.
Qed.

(** C3. The series of four samples 15 minutes apart priced 10, 5, 5, 12
    with threshold 8 gives exactly one frame, from the second sample to
    15 minutes after the third, of average price 5 and 30 minutes; with
    the first sample at 00:00 that is 00:15 to 00:45. *)
Theorem example_timeframes :
  (forall utcoffset t0,
      efficient_timeframes utcoffset (example_series t0) 8 0
      = Ok [mk_timeframe (fromtimestamp utcoffset (t0 + 900))
              (fromtimestamp utcoffset (t0 + 1800) + timedelta_minutes 15)
              5 30])
  /\ efficient_timeframes (fun _ => 0) (example_series 0) 8 0
     = Ok [mk_timeframe (timedelta_minutes 15) (timedelta_minutes 45) 5 30].
Proof. split; [intros utcoffset t0|]; reflexivity. Qed.

Lemma run_frames_intro utcoffset prices m r rs :
  r ∈ rs -> m <= duration_minutes (run_frame utcoffset prices r) ->
  run_frame utcoffset prices r ∈ run_frames utcoffset prices m rs.
Proof.
  intros Hr Hm. induction rs as [|r' rs IH]; [now apply elem_of_nil in Hr|].
  cbn [run_frames]. apply elem_of_cons in Hr as [->|Hr].
  - apply Z.leb_le in Hm. rewrite Hm. left.
  - destruct (m <=? _); [right|]; now apply IH.
Qed.

(** A sample that is not cheap lies, in time, in no frame. *)
Lemma not_cheap_outside_frames utcoffset off prices c rs i s r :
  zone_constant utcoffset off prices -> spaced prices ->
  length c = length prices ->
  runs_from c 0 rs -> r ∈ rs ->
  prices !! i = Some s -> c !! i = Some false ->
  let w := run_frame utcoffset prices r in
  ~ (start_time w <= fromtimestamp utcoffset (timestamp s) < end_time w).
Proof.
  intros Hz Hsp Hlen Hrs Hr Hs Hc w. subst w.
  pose proof (runs_from_bounds _ _ _ Hrs) as Hb.
  pose proof (runs_from_cheap _ _ _ Hrs) as Hch.
  rewrite Forall_forall in Hb, Hch.
  destruct (Hb r Hr) as [Hr1 Hr2]. rewrite Hlen in Hr2.
  specialize (Hch r Hr).
  assert (i < length prices)%nat as Hi by (eapply lookup_lt_Some; eauto).
  destruct (run_frame_times utcoffset off prices r Hz ltac:(lia) Hr2) as [-> ->].
  rewrite <- (ts_at_lookup _ _ _ Hs), (fromtimestamp_ts_at utcoffset off) by assumption.
  destruct (Nat.lt_ge_cases i r.1) as [Hlt|Hge].
  - pose proof (spaced_ts_at prices Hsp (r.1 - i) i ltac:(lia)) as Hts.
    replace (i + (r.1 - i))%nat with r.1 in Hts by lia. lia.
  - destruct (Nat.lt_ge_cases i r.2) as [Hin|Hout].
    + rewrite Hch in Hc by lia. discriminate.
    + pose proof (spaced_ts_at prices Hsp (i - (r.2 - 1)) (r.2 - 1) ltac:(lia)) as Hts.
      replace (r.2 - 1 + (i - (r.2 - 1)))%nat with i in Hts by lia. lia.
Qed.

(** C4. (1) A sample priced exactly at the threshold is classified not
    cheap; it is in none of the runs whose frames are returned, and, in a
    series with samples at least a sampling interval apart in a zone of
    constant offset, its time lies in no returned frame. (2) A cheap
    sample whose neighbours are not cheap gives a returned frame that
    starts at the sample, ends 15 minutes later and has
    [duration_minutes] 15 (unless a minimum duration above 15 filters it
    out). *)
Theorem threshold_boundary utcoffset prices threshold m :
  exists rs ws,
    runs_from (is_cheap_of prices threshold) 0 rs
    /\ ws = run_frames utcoffset prices m rs
    /\ efficient_timeframes utcoffset prices threshold m = Ok ws
    /\ (forall i s,
          prices !! i = Some s -> (price s == threshold)%Q ->
          is_cheap_of prices threshold !! i = Some false
          /\ (forall r, r ∈ rs -> ~ (r.1 <= i < r.2)%nat)
          /\ (forall off, zone_constant utcoffset off prices -> spaced prices ->
              forall w, w ∈ ws ->
                ~ (start_time w <= fromtimestamp utcoffset (timestamp s)
                   < end_time w)))
    /\ (forall i s,
          prices !! i = Some s -> (price s < threshold)%Q ->
          (forall s', (0 < i)%nat -> prices !! (i - 1)%nat = Some s' ->
                      ~ (price s' < threshold)%Q) ->
          (forall s', prices !! S i = Some s' -> ~ (price s' < threshold)%Q) ->
          m <= 15 ->
          exists w, w ∈ ws
            /\ start_time w = fromtimestamp utcoffset (timestamp s)
            /\ end_time w = start_time w + timedelta_minutes 15
            /\ (avg_price w == price s)%Q
            /\ duration_minutes w = 15).
Proof.
  destruct (efficient_timeframes_runs utcoffset prices threshold m)
    as (rs & Hrs & Heq).
  exists rs, (run_frames utcoffset prices m rs).
  split; [exact Hrs|]. split; [reflexivity|]. split; [exact Heq|]. split.
  - intros i s Hs Hprice.
    assert (is_cheap_of prices threshold !! i = Some false) as Hc.
    { rewrite (is_cheap_of_lookup _ _ _ _ Hs). f_equal.
      apply not_true_iff_false. rewrite Qltb_lt. rewrite Hprice.
      apply Qlt_irrefl. }
    split; [exact Hc|]. split.
    + intros r Hr Hin.
      pose proof (runs_from_cheap _ _ _ Hrs) as Hch. rewrite Forall_forall in Hch.
      rewrite (Hch r Hr i Hin) in Hc. discriminate.
    + intros off Hz Hsp w Hw.
      apply run_frames_elem in Hw as (r & Hr & ->).
      eapply (not_cheap_outside_frames utcoffset off); eauto using is_cheap_of_length.
  - intros i s Hs Hprice Hleft Hright Hm.
    assert (i < length prices)%nat as Hi by (eapply lookup_lt_Some; eauto).
    assert ((i, S i) ∈ rs) as Hin.
    { apply (runs_from_complete _ _ _ Hrs); rewrite ?is_cheap_of_length; try lia.
      - intros k Hk. assert (k = i) as -> by lia.
        rewrite (is_cheap_of_lookup _ _ _ _ Hs). f_equal. now apply Qltb_lt.
      - destruct i as [|i]; [now left|right].
        destruct (lookup_lt_is_Some_2 prices i) as [s' Hs']; [lia|].
        replace (S i - 1)%nat with i by lia.
        rewrite (is_cheap_of_lookup _ _ _ _ Hs'). f_equal.
        apply not_true_iff_false. rewrite Qltb_lt.
        apply (Hleft s'); [lia|]. now replace (S i - 1)%nat with i by lia.
      - intros Hlt. destruct (lookup_lt_is_Some_2 prices (S i) Hlt) as [s' Hs'].
        rewrite (is_cheap_of_lookup _ _ _ _ Hs'). f_equal.
        apply not_true_iff_false. rewrite Qltb_lt. now apply Hright. }
    assert (prices !! (S i - 1)%nat = Some s) as Hs1
      by now replace (S i - 1)%nat with i by lia.
    pose proof (run_frame_eq utcoffset prices i (S i) s s ltac:(lia) Hs Hs1) as Hf.
    cbv zeta in Hf. rewrite Nat.sub_diag, take_0 in Hf. cbn [map length] in Hf.
    exists (run_frame utcoffset prices (i, S i)). split.
    + apply run_frames_intro; [exact Hin|]. rewrite Hf. simpl. lia.
    + rewrite Hf. cbn [start_time end_time avg_price duration_minutes].
      repeat split.
      rewrite Qred_correct. unfold Qsum. simpl fold_right.
      change (inject_Z (Z.of_nat 1)) with 1%Q. field.
Qed.

Lemma threshold_boundary_witness :
  exists ws,
    efficient_timeframes (fun _ => 0) boundary_series 8 0 = Ok ws
    /\ is_cheap_of boundary_series 8 !! 2%nat = Some false
    /\ (forall w, w ∈ ws ->
          ~ (start_time w <= fromtimestamp (fun _ => 0) 1800 < end_time w))
    /\ (exists w, w ∈ ws
          /\ start_time w = fromtimestamp (fun _ => 0) 900
          /\ end_time w = start_time w + timedelta_minutes 15
          /\ (avg_price w == 5)%Q
          /\ duration_minutes w = 15).
Proof.
  destruct (threshold_boundary (fun _ => 0) boundary_series 8 0)
    as (rs & ws & Hrs & Hws & Heq & Hat & Hlone).
  exists ws. split; [exact Heq|].
  destruct (Hat 2%nat (mk_sample 1800 8) eq_refl (Qeq_refl 8)) as (Hc & _ & Htime).
  split; [exact Hc|]. split.
  - apply (Htime 0); [intros s _; reflexivity | apply spacedb_spaced; reflexivity].
  - apply (Hlone 1%nat (mk_sample 900 5) eq_refl).
    + reflexivity.
    + intros s' _ [= <-] H. vm_compute in H. discriminate.
    + intros s' [= <-] H. vm_compute in H. discriminate.
    + lia.
Defined.

(** * Desired state *)

Lemma within_any_true timeframes current_time :
  within_any timeframes current_time = true
  <-> exists tf, tf ∈ timeframes
        /\ start_time tf <= wall current_time < end_time tf.
Proof.
  induction timeframes as [|tf rest IH]; simpl.
  - split; [discriminate | intros (tf & Hin & _); now apply elem_of_nil in Hin].
  - destruct ((start_time tf <=? wall current_time)
              && (wall current_time <? end_time tf)) eqn:Hin.
    + split; [intros _|reflexivity]. exists tf. split; [left|].
      apply andb_true_iff in Hin as [?%Z.leb_le ?%Z.ltb_lt]. lia.
    + rewrite IH. split.
      * intros (tf' & Hin' & Ht). exists tf'. split; [now right | exact Ht].
      * intros (tf' & [->|Hin']%elem_of_cons & Ht).
        -- apply andb_false_iff in Hin as [?%Z.leb_gt | ?%Z.ltb_ge]; lia.
        -- exists tf'. split; assumption.
Qed.

(** C1. In a tick the desired state of a device is its forced state when
    there is one, whatever the frames; in auto mode it is true exactly
    when the current time is in [[start, end)] of one of the device's
    cached frames (so not at a frame's end), and false when the device
    has no cached frames. *)
Theorem desired_state app self name now :
  let current_time := mk_datetime now None in
  let timeframes := default [] (price_timeframes self !! name) in
  (forced_states_get app name = Some true ->
   target_state_of app self name current_time = true)
  /\ (forced_states_get app name = Some false ->
      target_state_of app self name current_time = false)
  /\ (forced_states_get app name = None ->
      (target_state_of app self name current_time = true
       <-> exists tf, tf ∈ timeframes /\ start_time tf <= now < end_time tf))
  /\ (forced_states_get app name = None -> timeframes = [] ->
      target_state_of app self name current_time = false).
Proof.
  intros current_time timeframes. unfold target_state_of. cbv zeta.
  split; [now intros -> |]. split; [now intros -> |]. split.
  - intros ->. unfold should_be_on_for_device. simpl. fold timeframes.
    apply (within_any_true timeframes current_time).
  - intros -> Hnone. unfold should_be_on_for_device. simpl. fold timeframes.
    now rewrite Hnone.
Qed.

Lemma desired_state_witness :
  target_state_of (boiler_app (Some true)) boiler_scheduler "boiler"
    (mk_datetime 0 None) = true
  /\ target_state_of (boiler_app (Some false)) boiler_scheduler "boiler"
       (mk_datetime 900000000 None) = false
  /\ (target_state_of (boiler_app None) boiler_scheduler "boiler"
        (mk_datetime 2700000000 None) = true
      <-> exists tf,
            tf ∈ default [] (price_timeframes boiler_scheduler !! "boiler")
            /\ start_time tf <= 2700000000 < end_time tf)
  /\ target_state_of (boiler_app None) init_scheduler "boiler"
       (mk_datetime 900000000 None) = false.
Proof.
  split; [|split; [|split]].
  - destruct (desired_state (boiler_app (Some true)) boiler_scheduler "boiler" 0)
      as (Hon & _).
    apply Hon. vm_compute. reflexivity.
  - destruct (desired_state (boiler_app (Some false)) boiler_scheduler "boiler" 900000000)
      as (_ & Hoff & _).
    apply Hoff. vm_compute. reflexivity.
  - destruct (desired_state (boiler_app None) boiler_scheduler "boiler" 2700000000)
      as (_ & _ & Hauto & _).
    apply Hauto. vm_compute. reflexivity.
  - destruct (desired_state (boiler_app None) init_scheduler "boiler" 900000000)
      as (_ & _ & _ & Hnone).
    apply Hnone; vm_compute; reflexivity.
Defined.

(** On a naive time the checked loop never raises and is the loop of
    [should_be_on_for_device]. *)
Lemma within_any_checked_naive timeframes fields :
  within_any_checked timeframes (mk_datetime fields None)
  = Ok (within_any timeframes (mk_datetime fields None)).
Proof.
  induction timeframes as [|tf rest IH]; [reflexivity|].
  cbn [within_any_checked within_any datetime_le datetime_lt tzinfo wall].
  rewrite bind_Ok.
  destruct (start_time tf <=? fields); cbn [andb]; rewrite bind_Ok.
  - destruct (fields <? end_time tf); [reflexivity | exact IH].
  - exact IH.
Qed.

(** On an aware time the first comparison with a frame raises. *)
Lemma within_any_checked_aware tf rest fields off :
  within_any_checked (tf :: rest) (mk_datetime fields (Some off))
  = Raise TypeError.
Proof. reflexivity. Qed.

(** C10. [should_be_on_for_device] drops the zone of an aware time
    without converting it and compares the bare wall-clock fields with
    the naive bounds of the frames: it never raises, an aware time gets
    the answer of the naive time with the same fields, and two aware
    times that denote the same instant in different zones can get
    different answers. The zone is really dropped before the comparison:
    the loop on an aware time itself would raise [TypeError] at the
    first frame. *)
Theorem aware_time_loses_zone :
  (forall self name current_time,
      should_be_on_for_device_checked self name current_time
      = Ok (should_be_on_for_device self name current_time))
  /\ (forall self name fields off,
        should_be_on_for_device_checked self name (mk_datetime fields (Some off))
        = should_be_on_for_device_checked self name (mk_datetime fields None))
  /\ (forall tf rest fields off,
        within_any_checked (tf :: rest) (mk_datetime fields (Some off))
        = Raise TypeError)
  /\ exists self name dt1 dt2,
       is_Some (tzinfo dt1) /\ is_Some (tzinfo dt2)
       /\ tzinfo dt1 <> tzinfo dt2
       /\ instant_of dt1 = instant_of dt2
       /\ should_be_on_for_device_checked self name dt1 = Ok true
       /\ should_be_on_for_device_checked self name dt2 = Ok false.
Proof.
  assert (forall self name current_time,
             should_be_on_for_device_checked self name current_time
             = Ok (should_be_on_for_device self name current_time)) as Hchecked.
  { intros self name [fields [off|]];
      unfold should_be_on_for_device_checked, should_be_on_for_device,
        replace_tzinfo_none; cbn [tzinfo wall];
      apply within_any_checked_naive. }
  split; [exact Hchecked|]. split; [|split].
  - intros self name fields off. rewrite !Hchecked. reflexivity.
  - apply within_any_checked_aware.
  - exists boiler_scheduler, "boiler",
      (mk_datetime 1800000000 (Some 0)),
      (mk_datetime 9000000000 (Some 7200000000)).
    split; [eexists; reflexivity|]. split; [eexists; reflexivity|].
    split; [discriminate|]. split; [reflexivity|].
    split; rewrite Hchecked; reflexivity.
Qed.

(** * Price refresh *)

(** C6. When the request raises, or the feed gives no entry, the refresh
    returns the scheduler as it was: cached series, every device's cached
    frames and everything else are unchanged, nothing is put in their
    place. *)
Theorem failed_fetch_keeps_state utcoffset app self :
  fetch_electricity_prices RequestException = []
  /\ fetch_electricity_prices (Payload []) = []
  /\ update_prices utcoffset app self RequestException = Ok self
  /\ update_prices utcoffset app self (Payload []) = Ok self
  /\ (forall r, fetch_electricity_prices r = [] ->
        update_prices utcoffset app self r = Ok self).
Proof.
  repeat split. intros r Hr. unfold update_prices. now rewrite Hr.
Qed.

Lemma failed_fetch_keeps_state_witness :
  fetch_electricity_prices RequestException = []
  /\ update_prices (fun _ => 7200) (boiler_app None) boiler_scheduler RequestException
     = Ok boiler_scheduler.
Proof.
  split; [reflexivity|].
  apply (failed_fetch_keeps_state (fun _ => 7200) (boiler_app None) boiler_scheduler).
  reflexivity.
Defined.

(** * Threshold resolution *)

Global Instance Qle_total : Total Qle.
Proof.
  intros x y. destruct (Qlt_le_dec x y) as [H|H]; [left; now apply Qlt_le_weak | now right].
Qed.

(** [statistics.median] on data that is not empty: the middle value of
    the sorted data, or the average of its two middle values. *)
Lemma median_spec (data : list Q) :
  data <> [] ->
  let n := length data in
  exists sorted_data med,
    sorted_data ≡ₚ data /\ Sorted Qle sorted_data
    /\ median data = Ok med
    /\ ((n mod 2 = 1)%nat -> sorted_data !! (n / 2)%nat = Some med)
    /\ ((n mod 2 = 0)%nat ->
        exists a b, sorted_data !! (n / 2 - 1)%nat = Some a
                    /\ sorted_data !! (n / 2)%nat = Some b
                    /\ med = ((a + b) / 2)%Q).
Proof.
  intros Hne n.
  pose proof (merge_sort_Permutation Qle data) as Hperm.
  pose proof (Permutation_length Hperm) as Hlen. fold n in Hlen.
  assert (0 < n)%nat as Hpos by (subst n; destruct data; [congruence | simpl; lia]).
  pose proof (Nat.div_lt n 2 Hpos ltac:(lia)) as Hhalf.
  destruct (lookup_lt_is_Some_2 (merge_sort Qle data) (n / 2)) as [b Hb]; [lia|].
  destruct (lookup_lt_is_Some_2 (merge_sort Qle data) (n / 2 - 1)) as [a Ha]; [lia|].
  unfold median. rewrite Hlen.
  replace (n =? 0)%nat with false by (symmetry; apply Nat.eqb_neq; lia).
  destruct (Nat.eqb_spec (n mod 2) 1) as [Hodd|Heven].
  - exists (merge_sort Qle data), b.
    split; [exact Hperm|]. split; [apply Sorted_merge_sort; apply _|].
    split; [now apply index_lookup|]. split; [intros _; exact Hb | intros; lia].
  - exists (merge_sort Qle data), ((a + b) / 2)%Q.
    split; [exact Hperm|]. split; [apply Sorted_merge_sort; apply _|].
    split; [now rewrite (index_lookup _ _ _ Ha), bind_Ok, (index_lookup _ _ _ Hb)|].
    split; [intros; lia | intros _; now exists a, b].
Qed.

(** ** Refreshing the cached frames *)

Lemma efficient_timeframes_total utcoffset prices threshold m :
  exists ws, efficient_timeframes utcoffset prices threshold m = Ok ws.
Proof.
  destruct (efficient_timeframes_runs utcoffset prices threshold m) as (rs & _ & H).
  eauto.
Qed.

Lemma frames_of_device_eq utcoffset app prices median_price name :
  efficient_timeframes utcoffset prices
    (calculate_threshold_price app name median_price) 0
  = Ok (frames_of_device utcoffset app prices median_price name).
Proof.
  unfold frames_of_device.
  destruct (efficient_timeframes_total utcoffset prices
              (calculate_threshold_price app name median_price) 0) as [ws ->].
  reflexivity.
Qed.

(** The loop over the devices returns; it stores the fresh frames of the
    names it visits and leaves the other entries of the map alone. *)
Lemma fill_timeframes_spec utcoffset app prices median_price names :
  forall self,
  exists final,
    fill_timeframes utcoffset app prices median_price names self = Ok final
    /\ last_prices final = last_prices self
    /\ forall x,
         price_timeframes final !! x
         = if decide (x ∈ names)
           then Some (frames_of_device utcoffset app prices median_price x)
           else price_timeframes self !! x.
Proof.
  induction names as [|name rest IH]; intros self.
  - exists self. split; [reflexivity|]. split; [reflexivity|].
    intros x. destruct (decide (x ∈ [])) as [Hin|_]; [|reflexivity].
    now apply elem_of_nil in Hin.
  - cbn [fill_timeframes]. rewrite frames_of_device_eq, bind_Ok.
    destruct (IH (set_price_timeframes self
                    (<[name := frames_of_device utcoffset app prices median_price name]>
                       (price_timeframes self))))
      as (final & Hfill & Hlast & Hmap).
    exists final. split; [exact Hfill|]. split; [exact Hlast|].
    intros x. rewrite Hmap. cbn [price_timeframes set_price_timeframes].
    destruct (decide (x ∈ rest)) as [Hin|Hnin].
    + rewrite decide_True by now right. reflexivity.
    + destruct (decide (x = name)) as [->|Hne].
      * rewrite lookup_insert_eq. rewrite decide_True by left. reflexivity.
      * rewrite lookup_insert_ne by congruence.
        rewrite decide_False; [reflexivity|].
        intros [?|?]%elem_of_cons; contradiction.
Qed.

Lemma update_prices_nonempty utcoffset app self r :
  fetch_electricity_prices r <> [] ->
  update_prices utcoffset app self r
  = (median_price ← median (map price (fetch_electricity_prices r));
     fill_timeframes utcoffset app (fetch_electricity_prices r) median_price
       (devices app).*1
       (set_price_timeframes
          (set_last_prices self (fetch_electricity_prices r)) ∅)).
Proof.
  intros Hne. unfold update_prices.
  destruct (fetch_electricity_prices r); [congruence | reflexivity].
Qed.

(** C5. On a refresh with a series that is not empty, the frames stored
    for a configured plug that has a threshold configuration are the
    frames of the series for the resolved threshold, where the resolved
    threshold is the configured value for a fixed configuration,
    whatever the series, and otherwise (a multiplier) the configured
    factor times the median of all sample prices of the series: the
    middle value of the sorted prices, or the average of the two middle
    values for an even length. A multiplier of 1.5 against a median of
    10 resolves to 15. *)
Theorem resolved_threshold utcoffset app self r name cfg :
  let prices := fetch_electricity_prices r in
  let n := length prices in
  prices <> [] ->
  name ∈ (devices app).*1 ->
  device_thresholds app !! name = Some cfg ->
  exists sorted_prices med threshold final frames,
    sorted_prices ≡ₚ map price prices /\ Sorted Qle sorted_prices
    /\ median (map price prices) = Ok med
    /\ ((n mod 2 = 1)%nat -> sorted_prices !! (n / 2)%nat = Some med)
    /\ ((n mod 2 = 0)%nat ->
        exists a b, sorted_prices !! (n / 2 - 1)%nat = Some a
                    /\ sorted_prices !! (n / 2)%nat = Some b
                    /\ med = ((a + b) / 2)%Q)
    /\ (cfg_type cfg = "fixed" -> threshold = cfg_value cfg)
    /\ (cfg_type cfg <> "fixed" -> threshold = (med * cfg_value cfg)%Q)
    /\ (cfg_type cfg = "multiplier" -> (cfg_value cfg == 3 # 2)%Q ->
        (med == 10)%Q -> (threshold == 15)%Q)
    /\ update_prices utcoffset app self r = Ok final
    /\ efficient_timeframes utcoffset prices threshold 0 = Ok frames
    /\ price_timeframes final !! name = Some frames.
Proof.
  intros prices n Hne Hname Hcfg.
  destruct (median_spec (map price prices))
    as (sorted_prices & med & Hperm & Hsorted & Hmed & Hodd & Heven).
  { destruct prices; [congruence | discriminate]. }
  rewrite length_map in Hodd, Heven. fold n in Hodd, Heven.
  destruct (fill_timeframes_spec utcoffset app prices med (devices app).*1
              (set_price_timeframes (set_last_prices self prices) ∅))
    as (final & Hfill & _ & Hmap).
  exists sorted_prices, med, (calculate_threshold_price app name med), final,
    (frames_of_device utcoffset app prices med name).
  do 5 (split; [assumption|]).
  assert (cfg_type cfg <> "fixed" ->
          calculate_threshold_price app name med = (med * cfg_value cfg)%Q) as Hmult.
  { intros Htype. unfold calculate_threshold_price. rewrite Hcfg.
    apply String.eqb_neq in Htype. now rewrite Htype. }
  split; [|split; [exact Hmult|split; [|split; [|split]]]].
  - intros Htype. unfold calculate_threshold_price. rewrite Hcfg, Htype. reflexivity.
  - intros Htype Hvalue Hten. rewrite Hmult by (rewrite Htype; discriminate).
    rewrite Hvalue, Hten. reflexivity.
  - rewrite update_prices_nonempty by assumption. fold prices.
    rewrite Hmed, bind_Ok. exact Hfill.
  - apply frames_of_device_eq.
  - rewrite Hmap. now apply decide_True.
Qed.

Lemma resolved_threshold_witness :
  fetch_electricity_prices median_feed <> []
  /\ "boiler" ∈ (devices multiplier_app).*1
  /\ device_thresholds multiplier_app !! "boiler"
     = Some (mk_threshold_config "multiplier" (3 # 2))
  /\ exists med threshold final frames,
       median (map price (fetch_electricity_prices median_feed)) = Ok med
       /\ (med == 10)%Q
       /\ (threshold == 15)%Q
       /\ update_prices (fun _ => 0) multiplier_app boiler_scheduler median_feed
          = Ok final
       /\ efficient_timeframes (fun _ => 0) (fetch_electricity_prices median_feed)
            threshold 0 = Ok frames
       /\ price_timeframes final !! "boiler" = Some frames.
Proof.
  assert (fetch_electricity_prices median_feed <> []) as Hne by discriminate.
  assert ("boiler" ∈ (devices multiplier_app).*1) as Hname by left.
  assert (device_thresholds multiplier_app !! "boiler"
          = Some (mk_threshold_config "multiplier" (3 # 2))) as Hcfg
    by (vm_compute; reflexivity).
  split; [exact Hne|]. split; [exact Hname|]. split; [exact Hcfg|].
  destruct (resolved_threshold (fun _ => 0) multiplier_app boiler_scheduler
              median_feed "boiler" _ Hne Hname Hcfg)
    as (sorted_prices & med & threshold & final & frames
        & _ & _ & Hmed & _ & _ & _ & _ & Hexample & Hupdate & Hframes & Hstored).
  exists med, threshold, final, frames.
  assert (med == 10)%Q as Hten.
  { pose proof Hmed as Hcomputed. vm_compute in Hcomputed.
    injection Hcomputed as <-. reflexivity. }
  split; [exact Hmed|]. split; [exact Hten|].
  split; [apply Hexample; [reflexivity | reflexivity | exact Hten]|].
  split; [exact Hupdate|]. split; [exact Hframes | exact Hstored].
Defined.

(** C9, as amended. A refresh on a series that is not empty returns; it
    resets the map to empty and then stores the fresh frames one device
    after the other, in place: after [k] iterations the map holds the
    final frames of the first [k] devices and no entry for the others;
    at the end it holds the fresh frames of every device and nothing
    else. *)
Theorem refresh_fills_in_place utcoffset app self r :
  fetch_electricity_prices r <> [] ->
  let prices := fetch_electricity_prices r in
  let names := (devices app).*1 in
  exists median_price final,
    median (map price prices) = Ok median_price
    /\ update_prices utcoffset app self r = Ok final
    /\ last_prices final = Some prices
    /\ refresh_state utcoffset app self r (length names) = Ok final
    /\ (forall x,
          price_timeframes final !! x
          = if decide (x ∈ names)
            then Some (frames_of_device utcoffset app prices median_price x)
            else None)
    /\ (forall x,
          efficient_timeframes utcoffset prices
            (calculate_threshold_price app x median_price) 0
          = Ok (frames_of_device utcoffset app prices median_price x))
    /\ (forall k, exists st,
          refresh_state utcoffset app self r k = Ok st
          /\ forall x,
               price_timeframes st !! x
               = if decide (x ∈ take k names)
                 then price_timeframes final !! x
                 else None).
Proof.
  intros Hne prices names.
  destruct (median_spec (map price prices)) as (_ & med & _ & _ & Hmed & _).
  { subst prices. destruct (fetch_electricity_prices r); [congruence | discriminate]. }
  destruct (fill_timeframes_spec utcoffset app prices med names
              (set_price_timeframes (set_last_prices self prices) ∅))
    as (final & Hfill & Hlast & Hmap).
  assert (update_prices utcoffset app self r = Ok final) as Hupd.
  { rewrite update_prices_nonempty by assumption. fold prices.
    rewrite Hmed, bind_Ok. exact Hfill. }
  exists med, final. split; [exact Hmed|]. split; [exact Hupd|].
  split; [exact Hlast|]. split.
  { unfold refresh_state. fold prices. rewrite Hmed, bind_Ok.
    fold names. rewrite take_ge by lia. exact Hfill. }
  split.
  { intros x. rewrite Hmap. cbn [price_timeframes set_price_timeframes].
    now rewrite lookup_empty. }
  split; [intros x; apply frames_of_device_eq|].
  intros k.
  destruct (fill_timeframes_spec utcoffset app prices med (take k names)
              (set_price_timeframes (set_last_prices self prices) ∅))
    as (st & Hst & _ & Hstmap).
  exists st. split.
  { unfold refresh_state. fold prices. rewrite Hmed, bind_Ok. exact Hst. }
  intros x. rewrite Hstmap, Hmap. cbn [price_timeframes set_price_timeframes].
  rewrite lookup_empty.
  destruct (decide (x ∈ take k names)) as [Hin|_]; [|reflexivity].
  rewrite decide_True; [reflexivity|]. now apply (subseteq_take k names).
Qed.

Example two_plug_partial_state :
  exists st,
    refresh_state (fun _ => 0) two_plug_app two_plug_scheduler two_plug_feed 1
    = Ok st
    /\ price_timeframes st !! "boiler"
       = Some [mk_timeframe 87300000000 89100000000 5 30]
    /\ price_timeframes st !! "heater" = None.
Proof. eexists. split; [vm_compute; reflexivity|]. split; vm_compute; reflexivity. Qed.

(** C9 as stated fails: with two plugs, after the first iteration of the
    loop the scheduler holds the fresh frames of the first plug and no
    entry for the second, which had frames before the refresh and has
    frames after it. *)
Lemma refresh_not_atomic :
  ~ snapshot_swap (fun _ => 0) two_plug_app two_plug_scheduler two_plug_feed.
Proof.
  intros H. destruct two_plug_partial_state as (st & Hst & _ & Hheater).
  destruct (H 1%nat st Hst) as [Hold | (final & Hupd & Hfin)].
  - rewrite Hold in Hheater. vm_compute in Hheater. discriminate.
  - rewrite Hfin in Hheater. vm_compute in Hupd. injection Hupd as <-.
    vm_compute in Hheater. discriminate.
Qed.

Lemma refresh_fills_in_place_witness :
  fetch_electricity_prices two_plug_feed <> []
  /\ exists final st,
       update_prices (fun _ => 0) two_plug_app two_plug_scheduler two_plug_feed
       = Ok final
       /\ refresh_state (fun _ => 0) two_plug_app two_plug_scheduler two_plug_feed 1
          = Ok st
       /\ price_timeframes st !! "boiler" = price_timeframes final !! "boiler"
       /\ price_timeframes st !! "heater" = None.
Proof.
  assert (fetch_electricity_prices two_plug_feed <> []) as Hne by discriminate.
  split; [exact Hne|].
  destruct (refresh_fills_in_place (fun _ => 0) two_plug_app two_plug_scheduler
              two_plug_feed Hne)
    as (med & final & _ & Hupd & _ & _ & _ & _ & Hsteps).
  destruct (Hsteps 1%nat) as (st & Hst & Hmap).
  exists final, st. split; [exact Hupd|]. split; [exact Hst|]. split.
  - rewrite Hmap. apply decide_True. left.
  - rewrite Hmap. apply decide_False.
    intros Hin. apply list_elem_of_singleton in Hin. discriminate.
Defined.

(** * Retrying device access *)

Lemma get_device_state_loop_generic self name ip attempts w :
  get_device_state_loop self name ip attempts w
  = retry_generic self (try_get_state ip) attempts w.
Proof.
  revert w. induction attempts as [|a rest IH]; intros w; simpl; [reflexivity|].
  destruct (try_get_state ip w) as [[b|] w1]; [reflexivity|].
  destruct (a <? max_retries self - 1); [apply IH | reflexivity].
Qed.

Lemma set_device_state_loop_generic self name ip turn_on attempts w :
  set_device_state_loop self name ip turn_on attempts w
  = let r := retry_generic self (try_set_state ip turn_on) attempts w in
    (bool_decide (is_Some r.1), r.2).
Proof.
  revert w. induction attempts as [|a rest IH]; intros w; simpl; [reflexivity|].
  destruct (try_set_state ip turn_on w) as [[b|] w1]; [reflexivity|].
  destruct (a <? max_retries self - 1); [apply IH | reflexivity].
Qed.

Lemma try_get_state_one_attempt ip : one_attempt (try_get_state ip).
Proof.
  intros w. unfold try_get_state, get_device, get_device_info, net_call. simpl.
  destruct (script w (calls w)) as [b|]; simpl.
  - eexists. rewrite <- app_assoc. split; [reflexivity|]. apply attempt_info.
  - eexists. split; [reflexivity|]. apply attempt_no_connect.
Qed.

Lemma try_set_state_one_attempt ip turn_on : one_attempt (try_set_state ip turn_on).
Proof.
  intros w. unfold try_set_state, get_device, device_on_off, net_call. simpl.
  destruct (script w (calls w)) as [b|]; simpl.
  - destruct (script w (S (calls w))) as [b'|]; simpl.
    + eexists. rewrite <- app_assoc. split; [reflexivity|].
      destruct turn_on; constructor.
    + eexists. rewrite <- app_assoc. split; [reflexivity|].
      destruct turn_on; constructor.
  - eexists. split; [reflexivity|]. apply attempt_no_connect.
Qed.

Lemma attempt_no_sleep evs ok : attempt evs ok -> sleeps_in evs = [].
Proof. now destruct 1. Qed.

Lemma sleeps_in_app evs1 evs2 :
  sleeps_in (evs1 ++ evs2) = sleeps_in evs1 ++ sleeps_in evs2.
Proof.
  induction evs1 as [|e evs1 IH]; [reflexivity|].
  destruct e; simpl; now rewrite IH.
Qed.

Lemma retry_log_positive delay k n ok evs :
  retry_log delay k n ok evs -> (0 < n)%nat.
Proof. destruct 1; lia. Qed.

(** The sleeps of a retried operation are the backoff delays, one
    between each two attempts. *)
Lemma retry_log_sleeps delay k n ok evs :
  retry_log delay k n ok evs ->
  sleeps_in evs
  = map (fun j => (delay * inject_Z (2 ^ Z.of_nat j))%Q) (seq k (n - 1)).
Proof.
  induction 1 as [k evs ok Hatt | k n evs rest ok Hatt Hrest IH].
  - simpl. eapply attempt_no_sleep; eauto.
  - rewrite sleeps_in_app, (attempt_no_sleep _ _ Hatt).
    cbn [sleeps_in app]. rewrite IH.
    pose proof (retry_log_positive _ _ _ _ _ Hrest).
    replace (S n - 1)%nat with (S (n - 1)) by lia. reflexivity.
Qed.

(** The retry loop over the attempts [k .. k+n-1], the last of which is
    attempt number [max_retries - 1]. *)
Lemma retry_generic_log {A} self (try_block : world -> option A * world) :
  one_attempt try_block ->
  forall n k w,
    (0 < n)%nat -> Z.of_nat (k + n) = max_retries self ->
    let r := retry_generic self try_block (map Z.of_nat (seq k n)) w in
    exists evs m,
      log r.2 = log w ++ evs
      /\ retry_log (retry_delay self) k m (bool_decide (is_Some r.1)) evs
      /\ (m <= n)%nat
      /\ (r.1 = None -> m = n).
Proof.
  intros Hone. induction n as [|n IH]; intros k w Hn Hmax; [lia|].
  cbn [seq map retry_generic].
  destruct (Hone w) as (evs & Hlog & Hatt).
  destruct (try_block w) as [[a|] w1]; cbn [fst snd] in *.
  - exists evs, 1%nat. split; [exact Hlog|]. split; [now constructor|].
    split; [lia | discriminate].
  - destruct (Z.ltb_spec (Z.of_nat k) (max_retries self - 1)) as [Hlt|Hge].
    + destruct (IH (S k)
                  (asyncio_sleep (retry_delay self * inject_Z (2 ^ Z.of_nat k))%Q w1))
        as (evs' & m & Hlog' & Hretry & Hm & Hall); [lia | lia |].
      exists (evs ++ Sleep (retry_delay self * inject_Z (2 ^ Z.of_nat k))%Q :: evs'),
        (S m).
      split.
      { rewrite Hlog'. cbn [asyncio_sleep log]. rewrite Hlog.
        rewrite <- !app_assoc. reflexivity. }
      split; [now constructor|]. split; [lia|]. intros Hnone. now rewrite Hall.
    + exists evs, 1%nat. split; [exact Hlog|]. split; [now constructor|].
      split; [lia|]. intros _. lia.
Qed.

Lemma retry_generic_backoff {A} self (try_block : world -> option A * world) w :
  one_attempt try_block -> 0 < max_retries self ->
  let r := retry_generic self try_block (range (max_retries self)) w in
  retries_with_backoff self w r.2 (bool_decide (is_Some r.1)).
Proof.
  intros Hone Hpos r.
  destruct (retry_generic_log self try_block Hone
              (Z.to_nat (max_retries self)) 0%nat w) as (evs & m & Hlog & Hretry & Hm & Hall);
    [lia | lia |].
  exists evs, m. split; [exact Hlog|]. split; [exact Hretry|]. split; [lia|].
  split.
  - intros Hfail. apply bool_decide_eq_false in Hfail.
    rewrite Hall; [lia|]. apply eq_None_not_Some. exact Hfail.
  - apply (retry_log_sleeps _ _ _ _ _ Hretry).
Qed.

(** C8. With a positive number of attempts allowed, reading and setting
    a plug's state each make between one and [max_retries] attempts: every
    attempt but the last has failed, attempt [k] that failed and is not
    the last is followed by one sleep of [retry_delay * 2^k], nothing is
    slept after the last attempt, and a failure is returned only after
    [max_retries] failed attempts. With the defaults (3 attempts, 2 s)
    the waits among three attempts are 2 s and 4 s, whether the third
    attempt succeeds or fails. *)
Theorem retry_backoff self name ip turn_on w :
  0 < max_retries self ->
  let get := get_device_state self name ip w in
  let set := set_device_state self name ip turn_on w in
  retries_with_backoff self w get.2 (bool_decide (is_Some get.1))
  /\ retries_with_backoff self w set.2 set.1
  /\ (max_retries self = 3 -> retry_delay self = 2%Q ->
      backoff_waits self 3 = [2; 4]%Q
      /\ backoff_waits self 2 = [2%Q] /\ backoff_waits self 1 = []).
Proof.
  intros Hpos get set. split; [|split].
  - subst get. unfold get_device_state. rewrite get_device_state_loop_generic.
    apply retry_generic_backoff; [apply try_get_state_one_attempt | exact Hpos].
  - subst set. unfold set_device_state. rewrite set_device_state_loop_generic.
    cbn [fst snd].
    apply retry_generic_backoff; [apply try_set_state_one_attempt | exact Hpos].
  - intros _ Hdelay. unfold backoff_waits. rewrite Hdelay. repeat split.
Qed.

Example flaky_read :
  get_device_state init_scheduler "boiler" "192.168.1.10" flaky_world
  = (Some false,
     {| script := script flaky_world; calls := 5;
        log := [ Connect "192.168.1.10" false; Sleep 2;
                 Connect "192.168.1.10" true; GetDeviceInfo "192.168.1.10" None;
                 Sleep 4;
                 Connect "192.168.1.10" true;
                 GetDeviceInfo "192.168.1.10" (Some false) ] |}).
Proof. reflexivity. Qed.

Example dead_write :
  set_device_state init_scheduler "boiler" "192.168.1.10" true dead_world
  = (false,
     {| script := script dead_world; calls := 3;
        log := [ Connect "192.168.1.10" false; Sleep 2;
                 Connect "192.168.1.10" false; Sleep 4;
                 Connect "192.168.1.10" false ] |}).
Proof. reflexivity. Qed.

Lemma retry_backoff_witness :
  0 < max_retries init_scheduler
  /\ retries_with_backoff init_scheduler flaky_world
       (get_device_state init_scheduler "boiler" "192.168.1.10" flaky_world).2 true
  /\ retries_with_backoff init_scheduler dead_world
       (set_device_state init_scheduler "boiler" "192.168.1.10" true dead_world).2
       false
  /\ backoff_waits init_scheduler 3 = [2; 4]%Q.
Proof.
  assert (0 < max_retries init_scheduler) as Hpos by (simpl; lia).
  destruct (retry_backoff init_scheduler "boiler" "192.168.1.10" true flaky_world Hpos)
    as (Hget & _ & Hwaits).
  destruct (retry_backoff init_scheduler "boiler" "192.168.1.10" true dead_world Hpos)
    as (_ & Hset & _).
  split; [exact Hpos|]. split; [exact Hget|]. split; [exact Hset|].
  apply Hwaits; reflexivity.
Defined.

(** * One tick *)

Lemma manage_devices_loop_app app self current_time l1 l2 w :
  manage_devices_loop app self current_time (l1 ++ l2) w
  = manage_devices_loop app self current_time l2
      (manage_devices_loop app self current_time l1 w).
Proof.
  revert w. induction l1 as [|[name ip] l1 IH]; intros w; [reflexivity|].
  simpl. apply IH.
Qed.

(** Reading a plug's state never commands a plug. *)
Lemma get_device_state_loop_no_switch self name ip attempts :
  forall w, exists evs,
    log (get_device_state_loop self name ip attempts w).2 = log w ++ evs
    /\ Forall (fun e => is_switch e = false) evs.
Proof.
  induction attempts as [|a rest IH]; intros w.
  - exists []. split; [simpl; now rewrite app_nil_r | constructor].
  - cbn [get_device_state_loop].
    destruct (try_get_state_one_attempt ip w) as (evs & Hlog & Hatt).
    assert (Forall (fun e => is_switch e = false) evs) as Hevs.
    { revert Hatt. unfold try_get_state, get_device, get_device_info, net_call in *.
      simpl in *. destruct (script w (calls w)); simpl in *.
      - rewrite <- app_assoc in Hlog. apply app_inv_head in Hlog as <-.
        intros _. repeat constructor.
      - apply app_inv_head in Hlog as <-. intros _. repeat constructor. }
    destruct (try_get_state ip w) as [[b|] w1]; cbn [fst snd] in *.
    + exists evs. split; assumption.
    + destruct (a <? max_retries self - 1).
      * destruct (IH (asyncio_sleep (retry_delay self * inject_Z (2 ^ a))%Q w1))
          as (evs' & Hlog' & Hevs').
        exists (evs ++ Sleep (retry_delay self * inject_Z (2 ^ a))%Q :: evs').
        split.
        { rewrite Hlog'. cbn [asyncio_sleep log]. rewrite Hlog.
          rewrite <- !app_assoc. reflexivity. }
        apply Forall_app. split; [exact Hevs|]. constructor; [reflexivity | exact Hevs'].
      * exists evs. split; assumption.
Qed.

(** C7. In a tick, when the read of a plug's state fails on every
    attempt, what the tick does for that plug is that read alone: no
    command to switch on or off is sent, the loop goes on, and the plugs
    that follow in the snapshot are processed from the world the failed
    read left; the log of that read shows [max_retries] failed attempts
    with the backoff sleeps between them. *)
Theorem unreachable_device_skipped app self now w pre name ip rest :
  devices app = pre ++ (name, ip) :: rest ->
  let current_time := mk_datetime now None in
  let w1 := manage_devices_loop app self current_time pre w in
  (get_device_state self name ip w1).1 = None ->
  let w2 := manage_device app self current_time name ip w1 in
  w2 = (get_device_state self name ip w1).2
  /\ (exists evs,
        log w2 = log w1 ++ evs /\ Forall (fun e => is_switch e = false) evs)
  /\ manage_devices app self now w
     = manage_devices_loop app self current_time rest w2
  /\ (0 < max_retries self -> retries_with_backoff self w1 w2 false).
Proof.
  intros Hdev current_time w1 Hnone w2.
  assert (w2 = (get_device_state self name ip w1).2) as Hw2.
  { subst w2. unfold manage_device.
    assert (in_devices app name = true) as ->.
    { unfold in_devices. apply bool_decide_eq_true. rewrite Hdev, fmap_app.
      apply elem_of_app. right. left. }
    cbn [negb].
    destruct (get_device_state self name ip w1) as [is_on w'].
    cbn [fst] in Hnone. subst is_on. reflexivity. }
  split; [exact Hw2|]. split; [|split].
  - rewrite Hw2. apply get_device_state_loop_no_switch.
  - unfold manage_devices. fold current_time. rewrite Hdev.
    rewrite manage_devices_loop_app. reflexivity.
  - intros Hpos. rewrite Hw2. clear Hw2. revert Hnone.
    unfold get_device_state. rewrite get_device_state_loop_generic.
    intros Hnone.
    pose proof (retry_generic_backoff self (try_get_state ip) w1
                  (try_get_state_one_attempt ip) Hpos) as Hretry.
    cbv zeta in Hretry. rewrite Hnone in Hretry. exact Hretry.
Qed.

Example boiler_down_tick :
  log (manage_devices two_plug_app two_plug_scheduler 0 boiler_down_world)
  = [ Connect "192.168.1.10" false; Sleep 2;
      Connect "192.168.1.10" false; Sleep 4;
      Connect "192.168.1.10" false;
      Connect "192.168.1.11" true; GetDeviceInfo "192.168.1.11" (Some false);
      Connect "192.168.1.11" true; SwitchOn "192.168.1.11" true ].
Proof. vm_compute. reflexivity. Qed.

Lemma unreachable_device_skipped_witness :
  devices two_plug_app
  = [] ++ ("boiler", "192.168.1.10") :: [("heater", "192.168.1.11")]
  /\ (get_device_state two_plug_scheduler "boiler" "192.168.1.10"
        boiler_down_world).1 = None
  /\ (exists evs,
        log (manage_device two_plug_app two_plug_scheduler (mk_datetime 0 None)
               "boiler" "192.168.1.10" boiler_down_world)
        = log boiler_down_world ++ evs
        /\ Forall (fun e => is_switch e = false) evs)
  /\ manage_devices two_plug_app two_plug_scheduler 0 boiler_down_world
     = manage_devices_loop two_plug_app two_plug_scheduler (mk_datetime 0 None)
         [("heater", "192.168.1.11")]
         (manage_device two_plug_app two_plug_scheduler (mk_datetime 0 None)
            "boiler" "192.168.1.10" boiler_down_world)
  /\ retries_with_backoff two_plug_scheduler boiler_down_world
       (manage_device two_plug_app two_plug_scheduler (mk_datetime 0 None)
          "boiler" "192.168.1.10" boiler_down_world) false.
Proof.
  assert (devices two_plug_app
          = [] ++ ("boiler", "192.168.1.10") :: [("heater", "192.168.1.11")])
    as Hdev by reflexivity.
  assert ((get_device_state two_plug_scheduler "boiler" "192.168.1.10"
             (manage_devices_loop two_plug_app two_plug_scheduler
                (mk_datetime 0 None) [] boiler_down_world)).1 = None)
    as Hnone by reflexivity.
  destruct (unreachable_device_skipped two_plug_app two_plug_scheduler 0
              boiler_down_world [] "boiler" "192.168.1.10"
              [("heater", "192.168.1.11")] Hdev Hnone)
    as (_ & Hlog & Hrest & Hretry).
  split; [exact Hdev|]. split; [exact Hnone|]. split; [exact Hlog|].
  split; [exact Hrest|]. apply Hretry. reflexivity.
Defined.


(** * More on segmentation *)

(** Every cheap position at or after [i] is inside a listed run. *)
Lemma runs_from_cover c i rs :
  runs_from c i rs ->
  forall k, (i <= k)%nat -> c !! k = Some true ->
  exists r, r ∈ rs /\ (r.1 <= k < r.2)%nat.
Proof.
  induction 1 as [i Hi | i rs Hc Hrs IH | i j rs Hij Htrue Hstop Hrs IH];
    intros k Hk Hck.
  - apply lookup_lt_Some in Hck. lia.
  - assert (i <> k) by (intros ->; congruence).
    destruct (IH k ltac:(lia) Hck) as (r & ? & ?). eauto.
  - destruct (Nat.lt_ge_cases k j) as [Hlt|Hge].
    + exists (i, j). split; [left | simpl; lia].
    + destruct (IH k Hge Hck) as (r & ? & ?). exists r. split; [now right | assumption].
Qed.

Lemma Qsum_le_upper (l : list Q) hi :
  Forall (fun x => x <= hi)%Q l ->
  (Qsum l <= inject_Z (Z.of_nat (length l)) * hi)%Q.
Proof.
  induction 1 as [|x l Hx Hl IH].
  - change (0 <= 0 * hi)%Q. lra.
  - cbn [Qsum fold_right length]. fold (Qsum l).
    rewrite Nat2Z.inj_succ, <- Z.add_1_l, inject_Z_plus.
    change (inject_Z 1) with 1%Q. nra.
Qed.

Lemma Qsum_le_lower (l : list Q) lo :
  Forall (fun x => lo <= x)%Q l ->
  (inject_Z (Z.of_nat (length l)) * lo <= Qsum l)%Q.
Proof.
  induction 1 as [|x l Hx Hl IH].
  - change (0 * lo <= 0)%Q. lra.
  - cbn [Qsum fold_right length]. fold (Qsum l).
    rewrite Nat2Z.inj_succ, <- Z.add_1_l, inject_Z_plus.
    change (inject_Z 1) with 1%Q. nra.
Qed.

Lemma length_pos_Q {A} (l : list A) : l <> [] -> (0 < inject_Z (Z.of_nat (length l)))%Q.
Proof.
  intros Hne. destruct l; [congruence|].
  change 0%Q with (inject_Z 0). rewrite <- Zlt_Qlt. simpl length. lia.
Qed.

(** The mean of values that are all below a bound is below it. *)
Lemma mean_lt (l : list Q) hi :
  l <> [] -> Forall (fun x => x < hi)%Q l ->
  (Qred (Qsum l / inject_Z (Z.of_nat (length l))) < hi)%Q.
Proof.
  intros Hne Hall. rewrite Qred_correct.
  apply Qlt_shift_div_r; [now apply length_pos_Q|].
  destruct l as [|x l]; [congruence|].
  apply Forall_cons in Hall as [Hx Hl].
  assert (Forall (fun y => y <= hi)%Q l) as Hle
    by (eapply Forall_impl; [exact Hl | intros; now apply Qlt_le_weak]).
  pose proof (Qsum_le_upper l hi Hle) as Hsum.
  cbn [Qsum fold_right length]. fold (Qsum l).
  rewrite Nat2Z.inj_succ, <- Z.add_1_l, inject_Z_plus.
  change (inject_Z 1) with 1%Q. nra.
Qed.

Lemma run_prices_cheap prices threshold r :
  (forall k, (r.1 <= k < r.2)%nat ->
             is_cheap_of prices threshold !! k = Some true) ->
  Forall (fun x => x < threshold)%Q
    (map price (take (r.2 - r.1) (drop r.1 prices))).
Proof.
  intros Hcheap. apply Forall_lookup. intros i x Hx.
  rewrite list_lookup_fmap in Hx.
  destruct (take (r.2 - r.1) (drop r.1 prices) !! i) as [s|] eqn:Hs; [|discriminate].
  injection Hx as <-.
  apply lookup_take_Some in Hs as [Hs Hi]. rewrite lookup_drop in Hs.
  specialize (Hcheap (r.1 + i)%nat ltac:(lia)).
  rewrite (is_cheap_of_lookup _ _ _ _ Hs) in Hcheap.
  injection Hcheap as Hcheap. now apply Qltb_lt.
Qed.

(** X1. Every frame [efficient_timeframes] returns has an average price
    strictly below the threshold. *)
Theorem frames_average_below_threshold utcoffset prices threshold m :
  exists ws,
    efficient_timeframes utcoffset prices threshold m = Ok ws
    /\ Forall (fun w => avg_price w < threshold)%Q ws.
Proof.
  destruct (efficient_timeframes_runs utcoffset prices threshold m)
    as (rs & Hrs & Heq).
  exists (run_frames utcoffset prices m rs). split; [exact Heq|].
  apply run_frames_Forall.
  pose proof (runs_from_bounds _ _ _ Hrs) as Hb.
  pose proof (runs_from_cheap _ _ _ Hrs) as Hc.
  rewrite is_cheap_of_length in Hb.
  rewrite Forall_forall in Hb, Hc. apply Forall_forall. intros r Hr.
  destruct (Hb r Hr) as [Hr1 Hr2]. specialize (Hc r Hr).
  unfold run_frame. cbn [avg_price].
  apply mean_lt; [|now apply run_prices_cheap].
  intros Hnil. apply (f_equal length) in Hnil.
  rewrite length_map, length_take, length_drop in Hnil. simpl in Hnil. lia.
Qed.

Lemma run_frame_duration_nonneg utcoffset prices r :
  0 <= duration_minutes (run_frame utcoffset prices r).
Proof. unfold run_frame. cbn [duration_minutes]. lia. Qed.

Lemma run_frames_zero utcoffset prices rs :
  run_frames utcoffset prices 0 rs = map (run_frame utcoffset prices) rs.
Proof.
  induction rs as [|r rs IH]; [reflexivity|].
  cbn [run_frames map]. rewrite IH.
  pose proof (run_frame_duration_nonneg utcoffset prices r) as Hd.
  apply Z.leb_le in Hd. now rewrite Hd.
Qed.

Lemma run_frames_filter utcoffset prices m rs :
  run_frames utcoffset prices m rs
  = filter (fun w => m <= duration_minutes w)
      (map (run_frame utcoffset prices) rs).
Proof.
  induction rs as [|r rs IH]; [reflexivity|].
  cbn [run_frames map]. rewrite IH.
  destruct (Z.leb_spec m (duration_minutes (run_frame utcoffset prices r))) as [Hle|Hgt].
  - now rewrite filter_cons_True.
  - rewrite filter_cons_False by lia. reflexivity.
Qed.

(** X2. The minimum duration only filters: the frames returned for a
    minimum [m] are, in order, those of the frames returned without a
    minimum whose [duration_minutes] is at least [m]. *)
Theorem min_duration_filters utcoffset prices threshold m :
  exists ws0 ws,
    efficient_timeframes utcoffset prices threshold 0 = Ok ws0
    /\ efficient_timeframes utcoffset prices threshold m = Ok ws
    /\ ws = filter (fun w => m <= duration_minutes w) ws0.
Proof.
  destruct (efficient_timeframes_runs utcoffset prices threshold 0)
    as (rs0 & Hrs0 & Heq0).
  destruct (efficient_timeframes_runs utcoffset prices threshold m)
    as (rs & Hrs & Heq).
  rewrite (runs_from_unique _ _ _ _ Hrs Hrs0) in Heq.
  eexists _, _. split; [exact Heq0|]. split; [exact Heq|].
  rewrite run_frames_zero. apply run_frames_filter.
Qed.

(** X3. Without a minimum duration, the result is empty exactly when no
    sample is priced below the threshold. *)
Theorem no_frame_iff_nothing_cheap utcoffset prices threshold :
  efficient_timeframes utcoffset prices threshold 0 = Ok []
  <-> forall s, s ∈ prices -> ~ (price s < threshold)%Q.
Proof.
  destruct (efficient_timeframes_runs utcoffset prices threshold 0)
    as (rs & Hrs & Heq).
  rewrite Heq, run_frames_zero. split.
  - intros Hnil s Hs Hlt.
    apply list_elem_of_lookup in Hs as [k Hk].
    destruct (runs_from_cover _ _ _ Hrs k ltac:(lia)) as (r & Hr & _).
    { rewrite (is_cheap_of_lookup _ _ _ _ Hk). f_equal. now apply Qltb_lt. }
    destruct rs; [now apply elem_of_nil in Hr | discriminate].
  - intros Hnone. destruct rs as [|r rs]; [reflexivity|]. exfalso.
    pose proof (runs_from_bounds _ _ _ Hrs) as Hb.
    pose proof (runs_from_cheap _ _ _ Hrs) as Hc.
    apply Forall_cons in Hb as [[Hr1 Hr2] _]. apply Forall_cons in Hc as [Hc _].
    rewrite is_cheap_of_length in Hr2.
    destruct (lookup_lt_is_Some_2 prices r.1) as [s Hs]; [lia|].
    specialize (Hc r.1 ltac:(lia)).
    rewrite (is_cheap_of_lookup _ _ _ _ Hs) in Hc. injection Hc as Hc.
    apply Qltb_lt in Hc. apply (Hnone s); [|exact Hc].
    eapply list_elem_of_lookup_2; eauto.
Qed.

(** X4. When every sample is priced below the threshold, the result is
    one frame, from the first sample to 15 minutes after the last, with
    [duration_minutes] 15 times the number of samples (unless the
    minimum duration exceeds that). *)
Theorem all_cheap_one_frame utcoffset prices threshold m first final :
  head prices = Some first -> last prices = Some final ->
  (forall s, s ∈ prices -> (price s < threshold)%Q) ->
  m <= Z.of_nat (length prices) * 15 ->
  exists w,
    efficient_timeframes utcoffset prices threshold m = Ok [w]
    /\ start_time w = fromtimestamp utcoffset (timestamp first)
    /\ end_time w = fromtimestamp utcoffset (timestamp final) + timedelta_minutes 15
    /\ duration_minutes w = Z.of_nat (length prices) * 15.
Proof.
  intros Hfirst Hlast Hall Hm.
  destruct (efficient_timeframes_runs utcoffset prices threshold m)
    as (rs & Hrs & Heq).
  assert (0 < length prices)%nat as Hpos by (destruct prices; [discriminate | simpl; lia]).
  assert (runs_from (is_cheap_of prices threshold) 0 [(0%nat, length prices)]) as Hone.
  { apply runs_take; rewrite ?is_cheap_of_length; try lia.
    - intros k Hk. destruct (lookup_lt_is_Some_2 prices k) as [s Hs]; [lia|].
      rewrite (is_cheap_of_lookup _ _ _ _ Hs). f_equal. apply Qltb_lt, Hall.
      eapply list_elem_of_lookup_2; eauto.
    - apply runs_end. rewrite is_cheap_of_length. lia. }
  rewrite (runs_from_unique _ _ _ _ Hrs Hone) in Heq.
  pose proof (run_frame_duration utcoffset prices (0%nat, length prices)) as Hdur.
  cbn [fst snd] in Hdur. rewrite Nat.sub_0_r in Hdur. specialize (Hdur ltac:(lia)).
  exists (run_frame utcoffset prices (0%nat, length prices)). split.
  - rewrite Heq. cbn [run_frames]. rewrite Hdur.
    apply Z.leb_le in Hm. now rewrite Hm.
  - split; [|split; [|exact Hdur]].
    + unfold run_frame. cbn [start_time fst]. f_equal.
      apply ts_at_lookup. now rewrite <- head_lookup.
    + unfold run_frame. cbn [end_time snd]. f_equal. f_equal.
      apply ts_at_lookup. rewrite last_lookup in Hlast.
      now replace (length prices - 1)%nat with (pred (length prices)) by lia.
Qed.

Lemma all_cheap_one_frame_witness :
  exists w,
    efficient_timeframes (fun _ => 0) gap_series 8 0 = Ok [w]
    /\ start_time w = fromtimestamp (fun _ => 0) 0
    /\ end_time w = fromtimestamp (fun _ => 0) 3600 + timedelta_minutes 15
    /\ duration_minutes w = 45.
Proof.
  apply (all_cheap_one_frame (fun _ => 0) gap_series 8 0
           (mk_sample 0 5) (mk_sample 3600 5)).
  - reflexivity.
  - reflexivity.
  - intros s Hs. repeat (apply elem_of_cons in Hs as [->|Hs]; [reflexivity|]).
    now apply elem_of_nil in Hs.
  - simpl. lia.
Defined.

(** During the 15 minutes that start at a sample, the time is inside a
    frame of the runs exactly when the sample is cheap. *)
Lemma run_frames_follow_prices utcoffset off prices threshold rs k s t :
  zone_constant utcoffset off prices -> spaced prices ->
  runs_from (is_cheap_of prices threshold) 0 rs ->
  prices !! k = Some s ->
  fromtimestamp utcoffset (timestamp s) <= t
    < fromtimestamp utcoffset (timestamp s) + timedelta_minutes 15 ->
  within_any (run_frames utcoffset prices 0 rs) (mk_datetime t None)
  = Qltb (price s) threshold.
Proof.
  intros Hz Hsp Hrs Hs Ht.
  assert (k < length prices)%nat as Hk by (eapply lookup_lt_Some; eauto).
  pose proof (runs_from_bounds _ _ _ Hrs) as Hb.
  pose proof (runs_from_cheap _ _ _ Hrs) as Hc.
  rewrite is_cheap_of_length in Hb. rewrite Forall_forall in Hb, Hc.
  rewrite <- (ts_at_lookup _ _ _ Hs) in Ht.
  rewrite (fromtimestamp_ts_at utcoffset off) in Ht by assumption.
  unfold timedelta_minutes, usec_per_minute in Ht.
  pose proof (is_cheap_of_lookup _ threshold _ _ Hs) as Hck.
  rewrite run_frames_zero.
  destruct (Qltb (price s) threshold) eqn:Hcheap.
  - apply within_any_true.
    destruct (runs_from_cover _ _ _ Hrs k ltac:(lia) Hck) as (r & Hr & Hin).
    destruct (Hb r Hr) as [Hr1 Hr2].
    exists (run_frame utcoffset prices r). split.
    { apply list_elem_of_fmap. eauto. }
    cbn [wall].
    destruct (run_frame_times utcoffset off prices r Hz ltac:(lia) Hr2) as [-> ->].
    pose proof (spaced_ts_at prices Hsp (k - r.1) r.1 ltac:(lia)) as H1.
    replace (r.1 + (k - r.1))%nat with k in H1 by lia.
    pose proof (spaced_ts_at prices Hsp (r.2 - 1 - k) k ltac:(lia)) as H2.
    replace (k + (r.2 - 1 - k))%nat with (r.2 - 1)%nat in H2 by lia.
    lia.
  - apply not_true_iff_false. intros Hin.
    apply within_any_true in Hin as (w & Hw & Hrange). cbn [wall] in Hrange.
    apply list_elem_of_fmap in Hw as (r & -> & Hr).
    destruct (Hb r Hr) as [Hr1 Hr2]. specialize (Hc r Hr).
    destruct (run_frame_times utcoffset off prices r Hz ltac:(lia) Hr2) as [Hst Hen].
    rewrite Hst, Hen in Hrange.
    destruct (Nat.lt_ge_cases k r.1) as [Hlt|Hge].
    + pose proof (spaced_ts_at prices Hsp (r.1 - k) k ltac:(lia)) as H1.
      replace (k + (r.1 - k))%nat with r.1 in H1 by lia. lia.
    + destruct (Nat.lt_ge_cases k r.2) as [Hin|Hout].
      * rewrite Hc in Hck by lia. discriminate.
      * pose proof (spaced_ts_at prices Hsp (k - (r.2 - 1)) (r.2 - 1) ltac:(lia)) as H1.
        replace (r.2 - 1 + (k - (r.2 - 1)))%nat with k in H1 by lia. lia.
Qed.

(** X5. For a series whose samples are at least 15 minutes apart, in a
    zone of constant offset, and without a minimum duration: at any time
    of the 15 minutes that start at a sample, the time lies in one of the
    returned frames exactly when that sample is priced below the
    threshold. *)
Theorem frames_follow_prices utcoffset off prices threshold k s t :
  zone_constant utcoffset off prices -> spaced prices ->
  prices !! k = Some s ->
  fromtimestamp utcoffset (timestamp s) <= t
    < fromtimestamp utcoffset (timestamp s) + timedelta_minutes 15 ->
  exists ws,
    efficient_timeframes utcoffset prices threshold 0 = Ok ws
    /\ (within_any ws (mk_datetime t None) = true <-> (price s < threshold)%Q).
Proof.
  intros Hz Hsp Hs Ht.
  destruct (efficient_timeframes_runs utcoffset prices threshold 0)
    as (rs & Hrs & Heq).
  exists (run_frames utcoffset prices 0 rs). split; [exact Heq|].
  rewrite (run_frames_follow_prices utcoffset off prices threshold rs k s t)
    by assumption.
  apply Qltb_lt.
Qed.

Lemma frames_follow_prices_witness :
  exists ws,
    efficient_timeframes (fun _ => 7200) (example_series 0) 8 0 = Ok ws
    /\ (within_any ws (mk_datetime 8999999999 None) = true <-> (5 < 8)%Q).
Proof.
  apply (frames_follow_prices (fun _ => 7200) 7200 (example_series 0) 8 1%nat
           (mk_sample 900 5) 8999999999).
  - intros s _. reflexivity.
  - apply spacedb_spaced. reflexivity.
  - reflexivity.
  - vm_compute. split; [discriminate | reflexivity].
Defined.

(** X6. After a refresh on a feed whose samples are at least 15 minutes
    apart, in a zone of constant offset: for a configured plug and any
    time of the 15 minutes that start at a sample, the schedule says on
    exactly when that sample's price is below the plug's threshold for
    the median of the feed. *)
Theorem refresh_schedules_by_price utcoffset off app self r name k s t :
  let prices := fetch_electricity_prices r in
  zone_constant utcoffset off prices -> spaced prices ->
  name ∈ (devices app).*1 ->
  prices !! k = Some s ->
  fromtimestamp utcoffset (timestamp s) <= t
    < fromtimestamp utcoffset (timestamp s) + timedelta_minutes 15 ->
  exists median_price final,
    median (map price prices) = Ok median_price
    /\ update_prices utcoffset app self r = Ok final
    /\ (should_be_on_for_device final name (mk_datetime t None) = true
        <-> (price s < calculate_threshold_price app name median_price)%Q).
Proof.
  intros prices Hz Hsp Hname Hs Ht.
  assert (fetch_electricity_prices r <> []) as Hne.
  { fold prices. intros Hnil. rewrite Hnil in Hs. discriminate. }
  destruct (median_spec (map price prices)) as (_ & med & _ & _ & Hmed & _).
  { destruct prices; [discriminate Hs | discriminate]. }
  destruct (fill_timeframes_spec utcoffset app prices med (devices app).*1
              (set_price_timeframes (set_last_prices self prices) ∅))
    as (final & Hfill & _ & Hmap).
  exists med, final. split; [exact Hmed|]. split.
  { rewrite update_prices_nonempty by assumption. fold prices.
    rewrite Hmed, bind_Ok. exact Hfill. }
  unfold should_be_on_for_device. cbn [tzinfo].
  rewrite Hmap, decide_True by assumption. cbn [default].
  destruct (efficient_timeframes_runs utcoffset prices
              (calculate_threshold_price app name med) 0) as (rs & Hrs & Heq).
  pose proof (frames_of_device_eq utcoffset app prices med name) as Hf.
  rewrite Heq in Hf. injection Hf as Hf. rewrite <- Hf. unfold id.
  rewrite (run_frames_follow_prices utcoffset off prices
             (calculate_threshold_price app name med) rs k s t Hz Hsp Hrs Hs Ht).
  apply Qltb_lt.
Qed.

Lemma refresh_schedules_by_price_witness :
  exists median_price final,
    median (map price (fetch_electricity_prices two_plug_feed)) = Ok median_price
    /\ update_prices (fun _ => 0) two_plug_app two_plug_scheduler two_plug_feed
       = Ok final
    /\ (should_be_on_for_device final "heater" (mk_datetime 86400000000 None) = true
        <-> (10 < calculate_threshold_price two_plug_app "heater" median_price)%Q).
Proof.
  apply (refresh_schedules_by_price (fun _ => 0) 0 two_plug_app two_plug_scheduler
           two_plug_feed "heater" 0%nat (mk_sample 86400 (100 / 10)) 86400000000).
  - intros s _. reflexivity.
  - apply spacedb_spaced. reflexivity.
  - right. left.
  - reflexivity.
  - vm_compute. split; [discriminate | reflexivity].
Defined.

Lemma count_true_run (c : list bool) :
  forall d i,
    (forall k, (i <= k < i + d)%nat -> c !! k = Some true) ->
    length (List.filter (fun b : bool => b) (drop i c))
    = (d + length (List.filter (fun b : bool => b) (drop (i + d) c)))%nat.
Proof.
  induction d as [|d IH]; intros i Htrue.
  - now rewrite Nat.add_0_r.
  - rewrite (drop_S c true i) by (apply Htrue; lia). cbn [List.filter length].
    rewrite (IH (S i)) by (intros; apply Htrue; lia).
    now replace (S i + d)%nat with (i + S d)%nat by lia.
Qed.

(** The runs from [i] on cover exactly the cheap positions from [i] on. *)
Lemma runs_from_lengths c i rs :
  runs_from c i rs ->
  run_lengths rs = length (List.filter (fun b : bool => b) (drop i c)).
Proof.
  induction 1 as [i Hi | i rs Hc Hrs IH | i j rs Hij Htrue Hstop Hrs IH].
  - now rewrite drop_ge.
  - now rewrite (drop_S c false i Hc).
  - cbn [run_lengths fold_right fst snd]. fold (run_lengths rs). rewrite IH.
    rewrite (count_true_run c (j - i) i) by (intros; apply Htrue; lia).
    now replace (i + (j - i))%nat with j by lia.
Qed.

Lemma total_minutes_runs utcoffset prices rs :
  Forall (fun r => (r.1 < r.2)%nat /\ (r.2 <= length prices)%nat) rs ->
  total_minutes (map (run_frame utcoffset prices) rs)
  = Z.of_nat (run_lengths rs) * 15.
Proof.
  induction 1 as [|r rs [Hr1 Hr2] Hrs IH]; [reflexivity|].
  cbn [map total_minutes fold_right run_lengths].
  fold (total_minutes (map (run_frame utcoffset prices) rs)). fold (run_lengths rs).
  rewrite IH, run_frame_duration by assumption. lia.
Qed.

Lemma count_cheap_is_cheap_of prices threshold :
  count_cheap prices threshold
  = length (List.filter (fun b : bool => b) (is_cheap_of prices threshold)).
Proof.
  unfold count_cheap, is_cheap_of.
  induction prices as [|p prices IH]; [reflexivity|].
  cbn [List.filter map]. destruct (Qltb (price p) threshold); simpl; now rewrite IH.
Qed.

(** X7. Without a minimum duration the [duration_minutes] of the
    returned frames add up to 15 minutes for each sample priced below
    the threshold: no cheap sample is lost or counted twice. *)
Theorem frames_total_minutes utcoffset prices threshold :
  exists ws,
    efficient_timeframes utcoffset prices threshold 0 = Ok ws
    /\ total_minutes ws = Z.of_nat (count_cheap prices threshold) * 15.
Proof.
  destruct (efficient_timeframes_runs utcoffset prices threshold 0)
    as (rs & Hrs & Heq).
  exists (run_frames utcoffset prices 0 rs). split; [exact Heq|].
  rewrite run_frames_zero, total_minutes_runs.
  - rewrite (runs_from_lengths _ _ _ Hrs), drop_0.
    now rewrite count_cheap_is_cheap_of.
  - pose proof (runs_from_bounds _ _ _ Hrs) as Hb.
    rewrite is_cheap_of_length in Hb.
    eapply Forall_impl; [exact Hb|]. simpl. intros r ?. lia.
Qed.

(** * Current price and statistics *)

Lemma same_clock_hour_test dt1 dt2 :
  (hour_of dt1 =? hour_of dt2) && (date_of dt1 =? date_of dt2) = true
  <-> same_clock_hour dt1 dt2.
Proof.
  unfold hour_of, date_of, same_clock_hour, usec_per_day.
  rewrite andb_true_iff, !Z.eqb_eq.
  rewrite <- !(Z.div_div _ usec_per_hour 24) by (unfold usec_per_hour; lia).
  pose proof (Z.div_mod (dt1 / usec_per_hour) 24 ltac:(lia)).
  pose proof (Z.div_mod (dt2 / usec_per_hour) 24 ltac:(lia)).
  split; [intros [? ?]; lia | intros ->; split; reflexivity].
Qed.

Lemma current_price_loop_spec utcoffset prices now :
  match current_price_loop utcoffset prices now with
  | Some p =>
    exists k s, prices !! k = Some s /\ price s = p
      /\ same_clock_hour (fromtimestamp utcoffset (timestamp s)) now
      /\ forall j s', (j < k)%nat -> prices !! j = Some s' ->
           ~ same_clock_hour (fromtimestamp utcoffset (timestamp s')) now
  | None =>
    forall s, s ∈ prices ->
      ~ same_clock_hour (fromtimestamp utcoffset (timestamp s)) now
  end.
Proof.
  induction prices as [|pd rest IH]; cbn [current_price_loop].
  - intros s Hs. now apply elem_of_nil in Hs.
  - destruct ((hour_of (fromtimestamp utcoffset (timestamp pd)) =? hour_of now)
              && (date_of (fromtimestamp utcoffset (timestamp pd)) =? date_of now))
      eqn:Htest.
    + apply same_clock_hour_test in Htest.
      exists 0%nat, pd. repeat split; [exact Htest|]. intros j s' Hj. lia.
    + assert (~ same_clock_hour (fromtimestamp utcoffset (timestamp pd)) now) as Hnot.
      { intros H. apply same_clock_hour_test in H. congruence. }
      destruct (current_price_loop utcoffset rest now) as [p|].
      * destruct IH as (k & s & Hk & Hp & Hsame & Hfirst).
        exists (S k), s. repeat split; try assumption.
        intros [|j] s' Hj Hs'; [injection Hs' as <-; exact Hnot|].
        apply (Hfirst j s'); [lia | exact Hs'].
      * intros s [->|Hs]%elem_of_cons; [exact Hnot | now apply IH].
Qed.

(** X8. [get_current_price] works by the clock hour: it returns the
    price of the first sample of the list whose local time is in the
    same hour of the same day as the current time, and [None] exactly
    when there is no such sample; so any two times of one clock hour get
    the same answer, whichever quarter of the hour they are in. *)
Theorem current_price_by_hour utcoffset prices now :
  (get_current_price utcoffset prices now = None
   <-> forall s, s ∈ prices ->
         ~ same_clock_hour (fromtimestamp utcoffset (timestamp s)) now)
  /\ (forall p, get_current_price utcoffset prices now = Some p ->
        exists k s, prices !! k = Some s /\ price s = p
          /\ same_clock_hour (fromtimestamp utcoffset (timestamp s)) now
          /\ forall j s', (j < k)%nat -> prices !! j = Some s' ->
               ~ same_clock_hour (fromtimestamp utcoffset (timestamp s')) now)
  /\ (forall now', same_clock_hour now now' ->
        get_current_price utcoffset prices now'
        = get_current_price utcoffset prices now).
Proof.
  assert (get_current_price utcoffset prices now
          = current_price_loop utcoffset prices now) as Hget
    by (destruct prices; reflexivity).
  pose proof (current_price_loop_spec utcoffset prices now) as Hspec.
  rewrite Hget. split; [|split].
  - destruct (current_price_loop utcoffset prices now) as [p|].
    + split; [discriminate|]. intros Hnone.
      destruct Hspec as (k & s & Hk & _ & Hsame & _).
      exfalso. apply (Hnone s); [|exact Hsame].
      eapply list_elem_of_lookup_2; eauto.
    + split; [intros _; exact Hspec | reflexivity].
  - intros p Hp. rewrite Hp in Hspec. exact Hspec.
  - intros now' Hsame. rewrite <- Hget. unfold get_current_price.
    destruct prices as [|pd rest]; [reflexivity|].
    generalize (pd :: rest). intros l. induction l as [|x l IH]; [reflexivity|].
    cbn [current_price_loop]. rewrite IH.
    assert (hour_of now' = hour_of now /\ date_of now' = date_of now) as [-> ->];
      [|reflexivity].
    unfold same_clock_hour in Hsame. unfold hour_of, date_of, usec_per_day.
    rewrite <- !(Z.div_div _ usec_per_hour 24) by (unfold usec_per_hour; lia).
    now rewrite Hsame.
Qed.

Lemma current_price_by_hour_witness :
  get_current_price (fun _ => 0) (example_series 0) 2700000000 = Some 10%Q
  /\ get_current_price (fun _ => 0) (example_series 0) 2700000000
     = get_current_price (fun _ => 0) (example_series 0) 0.
Proof.
  split; [reflexivity|].
  apply (current_price_by_hour (fun _ => 0) (example_series 0) 0).
  reflexivity.
Defined.

Lemma py_min_fold (l : list Q) :
  forall best,
    let m := fold_left (fun best item => if Qltb item best then item else best) l best in
    (m <= best)%Q /\ Forall (fun y => m <= y)%Q l /\ (m = best \/ m ∈ l).
Proof.
  induction l as [|y l IH]; intros best; cbn [fold_left].
  - split; [apply Qle_refl|]. split; [constructor | now left].
  - destruct (IH (if Qltb y best then y else best)) as (Hle & Hall & Hin).
    destruct (Qltb y best) eqn:Hlt.
    + apply Qltb_lt in Hlt. split; [|split].
      * eapply Qle_trans; [exact Hle | now apply Qlt_le_weak].
      * constructor; assumption.
      * right. destruct Hin as [->|Hin]; [left | now right].
    + assert (best <= y)%Q as Hby.
      { apply Qnot_lt_le. intros H. apply Qltb_lt in H. congruence. }
      split; [exact Hle|]. split.
      * constructor; [eapply Qle_trans; eauto | assumption].
      * destruct Hin as [->|Hin]; [now left | right; now right].
Qed.

Lemma py_max_fold (l : list Q) :
  forall best,
    let m := fold_left (fun best item => if Qltb best item then item else best) l best in
    (best <= m)%Q /\ Forall (fun y => y <= m)%Q l /\ (m = best \/ m ∈ l).
Proof.
  induction l as [|y l IH]; intros best; cbn [fold_left].
  - split; [apply Qle_refl|]. split; [constructor | now left].
  - destruct (IH (if Qltb best y then y else best)) as (Hle & Hall & Hin).
    destruct (Qltb best y) eqn:Hlt.
    + apply Qltb_lt in Hlt. split; [|split].
      * eapply Qle_trans; [apply Qlt_le_weak; exact Hlt | exact Hle].
      * constructor; assumption.
      * right. destruct Hin as [->|Hin]; [left | now right].
    + assert (y <= best)%Q as Hby.
      { apply Qnot_lt_le. intros H. apply Qltb_lt in H. congruence. }
      split; [exact Hle|]. split.
      * constructor; [eapply Qle_trans; eauto | assumption].
      * destruct Hin as [->|Hin]; [now left | right; now right].
Qed.

(** The mean and the median of data lie between any two bounds of it. *)
Lemma mean_between (data : list Q) lo hi m :
  Forall (fun y => lo <= y <= hi)%Q data -> mean data = Ok m ->
  (lo <= m <= hi)%Q.
Proof.
  intros Hall Hm. destruct data as [|x l]; [discriminate|].
  rewrite mean_cons in Hm. injection Hm as <-. rewrite Qred_correct.
  assert (0 < inject_Z (Z.of_nat (length (x :: l))))%Q as Hpos
    by (apply length_pos_Q; discriminate).
  split.
  - apply Qle_shift_div_l; [exact Hpos|]. rewrite Qmult_comm.
    apply (Qsum_le_lower (x :: l) lo).
    eapply Forall_impl; [exact Hall|]. now intros y [? ?].
  - apply Qle_shift_div_r; [exact Hpos|]. rewrite Qmult_comm.
    apply (Qsum_le_upper (x :: l) hi).
    eapply Forall_impl; [exact Hall|]. now intros y [? ?].
Qed.

Lemma median_between (data : list Q) lo hi m :
  Forall (fun y => lo <= y <= hi)%Q data -> median data = Ok m ->
  (lo <= m <= hi)%Q.
Proof.
  intros Hall Hm.
  assert (data <> []) as Hne by (intros ->; discriminate).
  destruct (median_spec data Hne) as (s & med & Hperm & _ & Hmed & Hodd & Heven).
  rewrite Hm in Hmed. injection Hmed as <-.
  rewrite <- Hperm in Hall. rewrite Forall_lookup in Hall.
  pose proof (Nat.mod_upper_bound (length data) 2 ltac:(lia)) as Hmod.
  assert ((length data mod 2 = 1)%nat \/ (length data mod 2 = 0)%nat) as [H1|H0] by lia.
  - exact (Hall _ _ (Hodd H1)).
  - destruct (Heven H0) as (a & b & Ha & Hb & ->).
    destruct (Hall _ _ Ha), (Hall _ _ Hb). split.
    + apply Qle_shift_div_l; [reflexivity | lra].
    + apply Qle_shift_div_r; [reflexivity | lra].
Qed.

(** X9. [get_price_statistics] gives [None] for an empty list; otherwise
    it returns, its minimum and maximum are prices of the list that
    bound every price, and the mean and the median lie between them. *)
Theorem price_statistics_bounds prices :
  get_price_statistics [] = Ok None
  /\ (prices <> [] ->
      exists st,
        get_price_statistics prices = Ok (Some st)
        /\ stat_min st ∈ map price prices
        /\ stat_max st ∈ map price prices
        /\ (forall s, s ∈ prices -> (stat_min st <= price s <= stat_max st)%Q)
        /\ (stat_min st <= stat_mean st <= stat_max st)%Q
        /\ (stat_min st <= stat_median st <= stat_max st)%Q).
Proof.
  split; [reflexivity|]. intros Hne.
  destruct prices as [|p rest]; [congruence|].
  unfold get_price_statistics. cbn [map].
  set (x := price p). set (l := map price rest).
  destruct (py_min_fold l x) as (Hmin_x & Hmin_l & Hmin_in).
  destruct (py_max_fold l x) as (Hmax_x & Hmax_l & Hmax_in).
  fold (py_min x l) in Hmin_x, Hmin_l, Hmin_in.
  fold (py_max x l) in Hmax_x, Hmax_l, Hmax_in.
  assert (Forall (fun y => py_min x l <= y <= py_max x l)%Q (x :: l)) as Hall.
  { constructor; [split; assumption|].
    rewrite Forall_forall in Hmin_l, Hmax_l. apply Forall_forall.
    intros y Hy. split; [now apply Hmin_l | now apply Hmax_l]. }
  destruct (median_spec (x :: l)) as (_ & md & _ & _ & Hmd & _); [discriminate|].
  rewrite mean_cons, bind_Ok, Hmd, bind_Ok.
  eexists. split; [reflexivity|]. cbn [stat_min stat_max stat_mean stat_median].
  split; [destruct Hmin_in as [->|?]; [left | now right]|].
  split; [destruct Hmax_in as [->|?]; [left | now right]|].
  split; [|split].
  - intros s Hs. rewrite Forall_forall in Hall. apply Hall.
    change (x :: l) with (map price (p :: rest)). apply list_elem_of_fmap. eauto.
  - apply (mean_between (x :: l)); [exact Hall | apply mean_cons].
  - apply (median_between (x :: l)); [exact Hall | exact Hmd].
Qed.

Lemma price_statistics_bounds_witness :
  example_series 0 <> []
  /\ exists st,
       get_price_statistics (example_series 0) = Ok (Some st)
       /\ (stat_min st <= stat_mean st <= stat_max st)%Q
       /\ (stat_min st <= stat_median st <= stat_max st)%Q.
Proof.
  assert (example_series 0 <> []) as Hne by discriminate.
  split; [exact Hne|].
  destruct (price_statistics_bounds (example_series 0)) as (_ & Hst).
  destruct (Hst Hne) as (st & Heq & _ & _ & _ & Hmean & Hmedian).
  exists st. split; [exact Heq|]. split; assumption.
Defined.

(** * More on retrying *)

Lemma Qsum_app (l1 l2 : list Q) : (Qsum (l1 ++ l2) == Qsum l1 + Qsum l2)%Q.
Proof.
  induction l1 as [|x l1 IH]; cbn [app Qsum fold_right].
  - fold (Qsum l2). lra.
  - fold (Qsum (l1 ++ l2)). fold (Qsum l1). rewrite IH. lra.
Qed.

(** The backoff delays before attempt [m] add up to [d * (2^m - 1)]. *)
Lemma backoff_sum (d : Q) (m : nat) :
  (Qsum (map (fun k => d * inject_Z (2 ^ Z.of_nat k)) (seq 0 m))
   == d * (inject_Z (2 ^ Z.of_nat m) - 1))%Q.
Proof.
  induction m as [|m IH].
  - change (0 == d * (1 - 1))%Q. lra.
  - rewrite seq_S, map_app, Qsum_app, IH. cbn [map Qsum fold_right Nat.add].
    rewrite Nat2Z.inj_succ, Z.pow_succ_r by lia. rewrite inject_Z_mult.
    change (inject_Z 2) with 2%Q. lra.
Qed.

Lemma backoff_waits_sum self n :
  (0 < n)%nat -> Z.of_nat n <= max_retries self -> (0 <= retry_delay self)%Q ->
  (Qsum (backoff_waits self n) <= max_backoff self)%Q
  /\ (Z.of_nat n = max_retries self ->
      (Qsum (backoff_waits self n) == max_backoff self)%Q).
Proof.
  intros Hn Hmax Hd. unfold backoff_waits, max_backoff. rewrite backoff_sum.
  replace (max_retries self - 1) with (Z.of_nat (n - 1) + (max_retries self - Z.of_nat n))
    by lia.
  split.
  - assert (2 ^ Z.of_nat (n - 1)
            <= 2 ^ (Z.of_nat (n - 1) + (max_retries self - Z.of_nat n))) as Hpow
      by (apply Z.pow_le_mono_r; lia).
    rewrite Zle_Qle in Hpow. nra.
  - intros Heq. rewrite Heq, Z.sub_diag, Z.add_0_r. reflexivity.
Qed.

Lemma retries_sleep_bound self w w' ok :
  (0 <= retry_delay self)%Q ->
  retries_with_backoff self w w' ok ->
  exists evs,
    log w' = log w ++ evs
    /\ (Qsum (sleeps_in evs) <= max_backoff self)%Q
    /\ (ok = false -> (Qsum (sleeps_in evs) == max_backoff self)%Q).
Proof.
  intros Hd (evs & n & Hlog & Hretry & Hn & Hfail & Hsleeps).
  pose proof (retry_log_positive _ _ _ _ _ Hretry) as Hpos.
  destruct (backoff_waits_sum self n Hpos Hn Hd) as [Hle Heq].
  exists evs. split; [exact Hlog|]. rewrite Hsleeps. split; [exact Hle|].
  intros Hok. apply Heq, Hfail, Hok.
Qed.

(** X10. Reading or setting a plug's state sleeps, over all its
    retries, at most [retry_delay * (2^(max_retries - 1) - 1)] seconds
    (6 s with the defaults), and exactly that long when it gives up. *)
Theorem backoff_total self name ip turn_on w :
  0 < max_retries self -> (0 <= retry_delay self)%Q ->
  let get := get_device_state self name ip w in
  let set := set_device_state self name ip turn_on w in
  (exists evs,
     log get.2 = log w ++ evs
     /\ (Qsum (sleeps_in evs) <= max_backoff self)%Q
     /\ (get.1 = None -> (Qsum (sleeps_in evs) == max_backoff self)%Q))
  /\ (exists evs,
        log set.2 = log w ++ evs
        /\ (Qsum (sleeps_in evs) <= max_backoff self)%Q
        /\ (set.1 = false -> (Qsum (sleeps_in evs) == max_backoff self)%Q))
  /\ (max_retries self = 3 -> retry_delay self = 2%Q -> max_backoff self = 6%Q).
Proof.
  intros Hpos Hd get set. split; [|split].
  - subst get. unfold get_device_state. rewrite get_device_state_loop_generic.
    destruct (retries_sleep_bound self w _ _ Hd
                (retry_generic_backoff self (try_get_state ip) w
                   (try_get_state_one_attempt ip) Hpos))
      as (evs & Hlog & Hle & Heq).
    exists evs. split; [exact Hlog|]. split; [exact Hle|].
    intros Hnone. apply Heq. rewrite Hnone. reflexivity.
  - subst set. unfold set_device_state. rewrite set_device_state_loop_generic.
    cbn [fst snd].
    apply (retries_sleep_bound self w _ _ Hd).
    apply retry_generic_backoff; [apply try_set_state_one_attempt | exact Hpos].
  - intros Hmax Hdelay. unfold max_backoff. rewrite Hmax, Hdelay. reflexivity.
Qed.

Lemma backoff_total_witness :
  0 < max_retries init_scheduler /\ (0 <= retry_delay init_scheduler)%Q
  /\ (exists evs,
        log (set_device_state init_scheduler "boiler" "192.168.1.10" true
               dead_world).2 = log dead_world ++ evs
        /\ (Qsum (sleeps_in evs) <= max_backoff init_scheduler)%Q
        /\ ((set_device_state init_scheduler "boiler" "192.168.1.10" true
               dead_world).1 = false ->
            (Qsum (sleeps_in evs) == max_backoff init_scheduler)%Q))
  /\ max_backoff init_scheduler = 6%Q.
Proof.
  assert (0 < max_retries init_scheduler) as Hpos by (simpl; lia).
  assert (0 <= retry_delay init_scheduler)%Q as Hd by (simpl; lra).
  destruct (backoff_total init_scheduler "boiler" "192.168.1.10" true dead_world
              Hpos Hd) as (_ & Hset & Hsix).
  split; [exact Hpos|]. split; [exact Hd|]. split; [exact Hset|].
  apply Hsix; reflexivity.
Defined.

(** * More on the tick *)

Lemma try_get_state_events ip w :
  exists evs,
    log (try_get_state ip w).2 = log w ++ evs
    /\ Forall (fun e => event_for ip e /\ is_switch e = false) evs.
Proof.
  unfold try_get_state, get_device, get_device_info, net_call. simpl.
  destruct (script w (calls w)); simpl.
  - eexists. rewrite <- app_assoc. split; [reflexivity|]. repeat constructor.
  - eexists. split; [reflexivity|]. repeat constructor.
Qed.

Lemma try_set_state_events ip turn_on w :
  exists evs,
    log (try_set_state ip turn_on w).2 = log w ++ evs
    /\ Forall (fun e => event_for ip e /\ switch_toward turn_on e) evs.
Proof.
  unfold try_set_state, get_device, device_on_off, net_call. simpl.
  destruct (script w (calls w)); simpl.
  - destruct (script w (S (calls w))); simpl;
      (eexists; rewrite <- app_assoc; split; [reflexivity|]);
      destruct turn_on; repeat constructor.
  - eexists. split; [reflexivity|]. repeat constructor.
Qed.

(** What a retry loop logs is what its [try] block logs, and sleeps. *)
Lemma retry_generic_events {A} self (try_block : world -> option A * world)
    (P : event -> Prop) :
  (forall d, P (Sleep d)) ->
  (forall w, exists evs, log (try_block w).2 = log w ++ evs /\ Forall P evs) ->
  forall attempts w, exists evs,
    log (retry_generic self try_block attempts w).2 = log w ++ evs
    /\ Forall P evs.
Proof.
  intros Hsleep Htry. induction attempts as [|a rest IH]; intros w.
  - exists []. split; [simpl; now rewrite app_nil_r | constructor].
  - cbn [retry_generic]. destruct (Htry w) as (evs & Hlog & Hevs).
    destruct (try_block w) as [[x|] w1]; cbn [fst snd] in *.
    + exists evs. split; assumption.
    + destruct (a <? max_retries self - 1).
      * destruct (IH (asyncio_sleep (retry_delay self * inject_Z (2 ^ a))%Q w1))
          as (evs' & Hlog' & Hevs').
        exists (evs ++ Sleep (retry_delay self * inject_Z (2 ^ a))%Q :: evs').
        split.
        { rewrite Hlog'. cbn [asyncio_sleep log]. rewrite Hlog.
          rewrite <- !app_assoc. reflexivity. }
        apply Forall_app. split; [exact Hevs|]. constructor; [apply Hsleep | exact Hevs'].
      * exists evs. split; assumption.
Qed.

Lemma get_device_state_events self name ip w :
  exists evs,
    log (get_device_state self name ip w).2 = log w ++ evs
    /\ Forall (fun e => event_for ip e /\ is_switch e = false) evs.
Proof.
  unfold get_device_state. rewrite get_device_state_loop_generic.
  apply retry_generic_events; [intros d; now split | apply try_get_state_events].
Qed.

Lemma set_device_state_events self name ip turn_on w :
  exists evs,
    log (set_device_state self name ip turn_on w).2 = log w ++ evs
    /\ Forall (fun e => event_for ip e /\ switch_toward turn_on e) evs.
Proof.
  unfold set_device_state. rewrite set_device_state_loop_generic. cbn [snd].
  apply retry_generic_events; [intros d; now split | apply try_set_state_events].
Qed.

Lemma not_switch_toward turn_on e : is_switch e = false -> switch_toward turn_on e.
Proof. now destruct e. Qed.

(** X11. What a tick does for one plug concerns that plug's address
    only; every command it sends switches towards the desired state
    (never the other way); and when the plug reports the desired state,
    no command is sent at all. *)
Theorem manage_device_commands app self current_time name ip w :
  let target := target_state_of app self name current_time in
  let w2 := manage_device app self current_time name ip w in
  exists evs,
    log w2 = log w ++ evs
    /\ Forall (fun e => event_for ip e /\ switch_toward target e) evs
    /\ ((get_device_state self name ip w).1 = Some target ->
        Forall (fun e => is_switch e = false) evs)
    /\ (in_devices app name = false -> evs = []).
Proof.
  intros target w2. subst w2. unfold manage_device. fold target.
  destruct (in_devices app name); cbn [negb].
  2: { exists []. split; [now rewrite app_nil_r|]. split; [constructor|].
       split; [intros _; constructor | reflexivity]. }
  destruct (get_device_state_events self name ip w) as (evs & Hlog & Hevs).
  destruct (get_device_state self name ip w) as [is_on w1]. cbn [fst snd] in *.
  assert (Forall (fun e => event_for ip e /\ switch_toward target e) evs) as Hevs1.
  { eapply Forall_impl; [exact Hevs|]. intros e [? ?].
    split; [assumption | now apply not_switch_toward]. }
  assert (Forall (fun e => is_switch e = false) evs) as Hevs2.
  { eapply Forall_impl; [exact Hevs|]. now intros e [? ?]. }
  destruct is_on as [is_on|].
  - destruct target, is_on; cbn [andb negb].
    + exists evs. split; [exact Hlog|]. split; [exact Hevs1|].
      split; [intros _; exact Hevs2 | discriminate].
    + destruct (set_device_state_events self name ip true w1) as (evs' & Hlog' & Hevs').
      exists (evs ++ evs'). split; [now rewrite Hlog', Hlog, app_assoc|].
      split; [apply Forall_app; split; assumption|]. split; discriminate.
    + destruct (set_device_state_events self name ip false w1) as (evs' & Hlog' & Hevs').
      exists (evs ++ evs'). split; [now rewrite Hlog', Hlog, app_assoc|].
      split; [apply Forall_app; split; assumption|]. split; discriminate.
    + exists evs. split; [exact Hlog|]. split; [exact Hevs1|].
      split; [intros _; exact Hevs2 | discriminate].
  - exists evs. split; [exact Hlog|]. split; [exact Hevs1|]. split; discriminate.
Qed.

(** What a tick does for one plug concerns that plug's address only. *)
Lemma manage_device_events app self current_time name ip w :
  exists evs,
    log (manage_device app self current_time name ip w) = log w ++ evs
    /\ Forall (event_for ip) evs.
Proof.
  unfold manage_device.
  destruct (in_devices app name); cbn [negb].
  2: { exists []. split; [now rewrite app_nil_r | constructor]. }
  destruct (get_device_state_events self name ip w) as (evs & Hlog & Hevs).
  destruct (get_device_state self name ip w) as [is_on w1]. cbn [fst snd] in *.
  assert (Forall (event_for ip) evs) as Hevs1
    by (eapply Forall_impl; [exact Hevs|]; now intros e [? ?]).
  assert (forall turn_on, exists evs',
            log (set_device_state self name ip turn_on w1).2 = log w ++ evs'
            /\ Forall (event_for ip) evs') as Hset.
  { intros turn_on.
    destruct (set_device_state_events self name ip turn_on w1) as (evs' & Hlog' & Hevs').
    exists (evs ++ evs'). split; [now rewrite Hlog', Hlog, app_assoc|].
    apply Forall_app. split; [exact Hevs1|].
    eapply Forall_impl; [exact Hevs'|]. now intros e [? ?]. }
  destruct is_on as [is_on|]; [|eauto].
  destruct (target_state_of app self name current_time && negb is_on); [apply Hset|].
  destruct (negb (target_state_of app self name current_time) && is_on);
    [apply Hset | eauto].
Qed.

Lemma manage_devices_loop_events app self current_time snapshot :
  forall w, exists evs,
    log (manage_devices_loop app self current_time snapshot w) = log w ++ evs
    /\ Forall (fun e => exists d, d ∈ snapshot /\ event_for d.2 e) evs.
Proof.
  induction snapshot as [|[name ip] rest IH]; intros w.
  - exists []. split; [simpl; now rewrite app_nil_r | constructor].
  - cbn [manage_devices_loop].
    destruct (manage_device_events app self current_time name ip w)
      as (evs & Hlog & Hevs).
    destruct (IH (manage_device app self current_time name ip w))
      as (evs' & Hlog' & Hevs').
    exists (evs ++ evs'). split; [now rewrite Hlog', Hlog, app_assoc|].
    apply Forall_app. split.
    + eapply Forall_impl; [exact Hevs|]. intros e He.
      exists (name, ip). split; [left | exact He].
    + eapply Forall_impl; [exact Hevs'|]. intros e (d & Hd & He).
      exists d. split; [now right | exact He].
Qed.

(** X12. A tick only ever contacts addresses of the configured plugs:
    every network call it logs is to the address of a plug of the
    snapshot. *)
Theorem manage_devices_only_configured app self now w :
  exists evs,
    log (manage_devices app self now w) = log w ++ evs
    /\ Forall (fun e => exists d, d ∈ devices app /\ event_for d.2 e) evs.
Proof. unfold manage_devices. apply manage_devices_loop_events. Qed.

Lemma range_pos n :
  0 < n -> range n = 0 :: map Z.of_nat (seq 1 (Z.to_nat n - 1)).
Proof.
  intros Hn. unfold range.
  replace (Z.to_nat n) with (S (Z.to_nat n - 1)) at 1 by lia. reflexivity.
Qed.

(** X13. On a network that answers every call, a tick handles a
    configured plug without sleeping: one read, then exactly one command
    towards the desired state when the plug reports the other state, and
    no command when it reports the desired one. *)
Theorem healthy_device_reconciled app self current_time name ip w b :
  0 < max_retries self ->
  in_devices app name = true ->
  (forall n, is_Some (script w n)) ->
  script w (S (calls w)) = Some b ->
  let target := target_state_of app self name current_time in
  log (manage_device app self current_time name ip w)
  = log w ++ [Connect ip true; GetDeviceInfo ip (Some b)]
      ++ (if Bool.eqb target b then []
          else [Connect ip true;
                if target then SwitchOn ip true else SwitchOff ip true]).
Proof.
  intros Hpos Hin Hall Hb target.
  destruct (Hall (calls w)) as [c0 H0].
  destruct (Hall (S (S (calls w)))) as [c2 H2].
  destruct (Hall (S (S (S (calls w))))) as [c3 H3].
  unfold manage_device. rewrite Hin. cbn [negb]. fold target.
  unfold get_device_state, set_device_state. rewrite (range_pos _ Hpos).
  cbn [get_device_state_loop set_device_state_loop].
  unfold try_get_state, try_set_state, get_device, get_device_info,
    device_on_off, net_call.
  cbn [script calls log]. rewrite H0. cbn [script calls log]. rewrite Hb.
  destruct target, b; cbn [andb negb Bool.eqb snd script calls log];
    rewrite ?H2; cbn [script calls log]; rewrite ?H3; cbn [snd log];
    rewrite <- ?app_assoc; reflexivity.
Qed.

Lemma healthy_device_reconciled_witness :
  log (manage_device two_plug_app two_plug_scheduler (mk_datetime 0 None)
         "boiler" "192.168.1.10" healthy_world)
  = [ Connect "192.168.1.10" true; GetDeviceInfo "192.168.1.10" (Some false);
      Connect "192.168.1.10" true; SwitchOn "192.168.1.10" true ].
Proof.
  apply (healthy_device_reconciled two_plug_app two_plug_scheduler
           (mk_datetime 0 None) "boiler" "192.168.1.10" healthy_world false).
  - simpl. lia.
  - vm_compute. reflexivity.
  - intros n. simpl. destruct (Nat.even n); eauto.
  - reflexivity.
Defined.

(** X14. The connection test makes one attempt on the plug's address,
    without retry, sleep or command; and when it succeeds, a read of the
    state from the same world succeeds at its first attempt and ends in
    the same world. *)
Theorem connection_test_one_attempt ip w :
  let r := test_device_connection ip w in
  (exists evs,
     log r.2 = log w ++ evs /\ attempt evs r.1
     /\ Forall (fun e => event_for ip e /\ is_switch e = false) evs)
  /\ (forall self name,
        0 < max_retries self -> r.1 = true ->
        exists device_on, get_device_state self name ip w = (Some device_on, r.2)).
Proof.
  intros r. subst r. split.
  - destruct (try_get_state_one_attempt ip w) as (evs & Hlog & Hatt).
    destruct (try_get_state_events ip w) as (evs' & Hlog' & Hevs').
    assert (evs' = evs) as -> by (rewrite Hlog in Hlog'; now apply app_inv_head in Hlog').
    exists evs. revert Hlog Hatt.
    unfold test_device_connection, try_get_state, get_device, get_device_info, net_call.
    cbn [script calls log].
    destruct (script w (calls w)); cbn [script calls log fst snd].
    + destruct (script w (S (calls w))); cbn [fst snd]; intros Hlog Hatt;
        (split; [exact Hlog|]); (split; [exact Hatt | exact Hevs']).
    + intros Hlog Hatt. split; [exact Hlog|]. split; [exact Hatt | exact Hevs'].
  - intros self name Hpos.
    unfold get_device_state. rewrite (range_pos _ Hpos).
    cbn [get_device_state_loop].
    unfold test_device_connection, try_get_state, get_device, get_device_info, net_call.
    cbn [script calls log].
    destruct (script w (calls w)); cbn [script calls log fst snd]; [|discriminate].
    destruct (script w (S (calls w))) as [device_on|]; cbn [fst snd]; [|discriminate].
    intros _. now exists device_on.
Qed.

Lemma connection_test_one_attempt_witness :
  0 < max_retries init_scheduler
  /\ (test_device_connection "192.168.1.10" healthy_world).1 = true
  /\ exists device_on,
       get_device_state init_scheduler "boiler" "192.168.1.10" healthy_world
       = (Some device_on, (test_device_connection "192.168.1.10" healthy_world).2).
Proof.
  assert (0 < max_retries init_scheduler) as Hpos by (simpl; lia).
  split; [exact Hpos|]. split; [reflexivity|].
  destruct (connection_test_one_attempt "192.168.1.10" healthy_world) as (_ & Hread).
  apply (Hread init_scheduler "boiler" Hpos). reflexivity.
Defined.

Lemma get_device_state_loop_last self name ip attempts :
  forall w device_on w',
    get_device_state_loop self name ip attempts w = (Some device_on, w') ->
    exists pre,
      log w' = log w ++ pre ++ [Connect ip true; GetDeviceInfo ip (Some device_on)].
Proof.
  induction attempts as [|a rest IH]; intros w b w' Hget; [discriminate|].
  cbn [get_device_state_loop] in Hget.
  destruct (try_get_state_events ip w) as (evs & Hlog & _).
  destruct (try_get_state ip w) as [[b'|] w1] eqn:Htry; cbn [snd] in Hlog.
  - injection Hget as -> ->. exists []. revert Htry.
    unfold try_get_state, get_device, get_device_info, net_call.
    cbn [script calls log].
    destruct (script w (calls w)); cbn [script calls log]; [|discriminate].
    intros [= Hb <-]. cbn [log]. rewrite Hb, <- app_assoc. reflexivity.
  - destruct (a <? max_retries self - 1); [|discriminate].
    destruct (IH _ _ _ Hget) as (pre & Hpre).
    exists (evs ++ Sleep (retry_delay self * inject_Z (2 ^ a))%Q :: pre).
    rewrite Hpre. cbn [asyncio_sleep log]. rewrite Hlog.
    rewrite <- !app_assoc. reflexivity.
Qed.

(** X15. A state that [get_device_state] returns is the one the plug
    itself reported in the last call made: the log ends with a
    successful connection to the plug's address and its report of that
    state. *)
Theorem state_read_reports_plug self name ip w device_on w' :
  get_device_state self name ip w = (Some device_on, w') ->
  exists pre,
    log w' = log w ++ pre ++ [Connect ip true; GetDeviceInfo ip (Some device_on)].
Proof. unfold get_device_state. apply get_device_state_loop_last. Qed.

Lemma state_read_reports_plug_witness :
  exists pre,
    log (get_device_state init_scheduler "boiler" "192.168.1.10" flaky_world).2
    = log flaky_world ++ pre
        ++ [Connect "192.168.1.10" true; GetDeviceInfo "192.168.1.10" (Some false)].
Proof.
  apply (state_read_reports_plug init_scheduler "boiler" "192.168.1.10" flaky_world
           false).
  reflexivity.
Defined.

(** * More on the refresh *)

Lemma fill_timeframes_params utcoffset app prices median_price names :
  forall self final,
    fill_timeframes utcoffset app prices median_price names self = Ok final ->
    max_retries final = max_retries self /\ retry_delay final = retry_delay self.
Proof.
  induction names as [|name rest IH]; intros self final Hfill.
  - injection Hfill as <-. now split.
  - cbn [fill_timeframes] in Hfill. rewrite frames_of_device_eq, bind_Ok in Hfill.
    apply IH in Hfill. exact Hfill.
Qed.

Lemma update_prices_params utcoffset app self r final :
  update_prices utcoffset app self r = Ok final ->
  max_retries final = max_retries self /\ retry_delay final = retry_delay self.
Proof.
  unfold update_prices.
  destruct (fetch_electricity_prices r) as [|p l]; [intros [= <-]; now split|].
  destruct (median (map price (p :: l))) as [med|e]; [|discriminate].
  rewrite bind_Ok. intros Hfill. apply fill_timeframes_params in Hfill. exact Hfill.
Qed.

Lemma update_prices_fresh utcoffset app self self' r :
  fetch_electricity_prices r <> [] ->
  max_retries self = max_retries self' -> retry_delay self = retry_delay self' ->
  update_prices utcoffset app self r = update_prices utcoffset app self' r.
Proof.
  intros Hne Hmax Hdelay. rewrite !update_prices_nonempty by assumption.
  unfold set_price_timeframes, set_last_prices. cbn [max_retries retry_delay last_prices].
  now rewrite Hmax, Hdelay.
Qed.

(** X16. A refresh on a feed that is not empty builds its result from
    the feed and the configuration alone: the cached series and frames
    of before play no part (two schedulers with the same retry settings
    get the same result), and refreshing again with the same feed
    changes nothing. *)
Theorem refresh_overwrites utcoffset app self r :
  fetch_electricity_prices r <> [] ->
  (forall self',
      max_retries self = max_retries self' -> retry_delay self = retry_delay self' ->
      update_prices utcoffset app self r = update_prices utcoffset app self' r)
  /\ (forall final,
        update_prices utcoffset app self r = Ok final ->
        update_prices utcoffset app final r = Ok final).
Proof.
  intros Hne. split.
  - intros self'. now apply update_prices_fresh.
  - intros final Hfinal.
    destruct (update_prices_params _ _ _ _ _ Hfinal) as [Hmax Hdelay].
    rewrite <- Hfinal. now apply update_prices_fresh.
Qed.

Lemma refresh_overwrites_witness :
  fetch_electricity_prices two_plug_feed <> []
  /\ update_prices (fun _ => 0) two_plug_app two_plug_scheduler two_plug_feed
     = update_prices (fun _ => 0) two_plug_app init_scheduler two_plug_feed.
Proof.
  assert (fetch_electricity_prices two_plug_feed <> []) as Hne by discriminate.
  split; [exact Hne|].
  destruct (refresh_overwrites (fun _ => 0) two_plug_app two_plug_scheduler
              two_plug_feed Hne) as (Hfresh & _).
  apply Hfresh; reflexivity.
Defined.
